(** * Audio2MidiFlow: the task synchronisation core of the frontend

    A shallow embedding of the zustand stores ([useTaskStore], [useUIStore])
    and of the react-query hooks built on them ([useTasks], [useUpload],
    [useRecentUploads]), followed by the properties of the task registry,
    the reconciler, the polling policy, the notification queue and the
    action gateway.

    Conventions of the embedding:
    - a TypeScript optional property [f?: T] is a field of type [option T],
      [None] standing for an absent (or [undefined]) property;
    - JavaScript numbers that the code only stores, or that hold integers
      (ids, sizes, millisecond timestamps, intervals), are in [Z];
    - a store action [set(state => ...)] is a function from state to state;
    - values the code draws from the environment ([Math.random], [Date.now],
      [new Date()]) are explicit arguments. *)

From Stdlib Require Import ZArith QArith Ascii.
From stdpp Require Import base strings pretty list gmap sorting.

(** ** JavaScript helpers *)

Module Js.

(** [s || d] on an optional string: [undefined] and the empty string are
    falsy, so the right operand is taken. *)
Definition or_else (s : option string) (d : string) : string :=
  match s with
  | Some v => if String.eqb v EmptyString then d else v
  | None => d
  end.

(** [a || b] when both operands may be [undefined]. *)
Definition or_opt (a b : option string) : option string :=
  match a with
  | Some v => if String.eqb v EmptyString then b else Some v
  | None => b
  end.

(** Truthiness of an optional string, as in [if (data.data.task_id)]. *)
Definition truthy (s : option string) : bool :=
  match s with
  | Some v => negb (String.eqb v EmptyString)
  | None => false
  end.

(** One property of an object spread [{...o, ...u}]: the property of [u]
    when [u] has it, the one of [o] otherwise. *)
Definition spread {A : Type} (o : A) (u : option A) : A :=
  match u with
  | Some v => v
  | None => o
  end.

(** [new Map(entries)]: entries are set from left to right, a later entry
    replacing an earlier one with the same key. *)
Definition Map_new {V : Type} (entries : list (string * V)) : gmap string V :=
  foldl (fun m kv => <[kv.1 := kv.2]> m) ∅ entries.

(** [map.has(k)]. *)
Definition Map_has {V : Type} (m : gmap string V) (k : string) : bool :=
  bool_decide (is_Some (m !! k)).

(** [Array.prototype.sort(compareFn)]: a stable sort; an element moves
    behind every element already placed that does not compare greater. With
    a comparator that is no consistent ordering the engine is free in the
    order it returns, never in the elements. *)
Fixpoint sort_insert {A : Type} (compareFn : A -> A -> Z) (x : A) (l : list A)
  : list A :=
  match l with
  | [] => [x]
  | y :: l' =>
      if (compareFn y x <=? 0)%Z then y :: sort_insert compareFn x l'
      else x :: y :: l'
  end.

Definition Array_sort {A : Type} (compareFn : A -> A -> Z) (l : list A) : list A :=
  foldl (fun acc x => sort_insert compareFn x acc) [] l.

End Js.

(** ** types/index.ts *)

Inductive TaskStatus : Type :=
  | pending
  | processing
  | completed
  | failed
  | cancelled.

Inductive ProcessingStage : Type :=
  | queued
  | audio_loading
  | feature_extraction
  | pitch_detection
  | midi_generation
  | finalization.

Record Task : Type := mkTask {
  id : Z;
  task_id : string;
  original_filename : string;
  status : TaskStatus;
  progress : Z;
  processing_stage : option ProcessingStage;
  error_message : option string;
  file_size : option Z;
  output_size : option Z;
  created_at : string;
  started_at : option string;
  completed_at : option string;
  estimated_completion : option string;
  processing_time : option Z;
  download_url : option string
}.

(** [Partial<Task>]: every property may be absent ([None]); an optional
    property of [Task] that is present may still hold [undefined]
    ([Some None]). *)
Record PartialTask : Type := mkPartialTask {
  p_id : option Z;
  p_task_id : option string;
  p_original_filename : option string;
  p_status : option TaskStatus;
  p_progress : option Z;
  p_processing_stage : option (option ProcessingStage);
  p_error_message : option (option string);
  p_file_size : option (option Z);
  p_output_size : option (option Z);
  p_created_at : option string;
  p_started_at : option (option string);
  p_completed_at : option (option string);
  p_estimated_completion : option (option string);
  p_processing_time : option (option Z);
  p_download_url : option (option string)
}.

(** The object literal [{}] as a [Partial<Task>]. *)
Definition no_updates : PartialTask :=
  mkPartialTask None None None None None None None None None None None None
    None None None.

(** A task object used where a [Partial<Task>] is expected, as it comes out
    of [JSON.parse]: required properties are present, an optional one is
    present exactly when it has a value. *)
Definition as_partial (t : Task) : PartialTask :=
  {| p_id := Some (id t);
     p_task_id := Some (task_id t);
     p_original_filename := Some (original_filename t);
     p_status := Some (status t);
     p_progress := Some (progress t);
     p_processing_stage := Some <$> processing_stage t;
     p_error_message := Some <$> error_message t;
     p_file_size := Some <$> file_size t;
     p_output_size := Some <$> output_size t;
     p_created_at := Some (created_at t);
     p_started_at := Some <$> started_at t;
     p_completed_at := Some <$> completed_at t;
     p_estimated_completion := Some <$> estimated_completion t;
     p_processing_time := Some <$> processing_time t;
     p_download_url := Some <$> download_url t |}.

(** [{ ...task, ...updates }] *)
Definition spread_task (task : Task) (updates : PartialTask) : Task :=
  {| id := Js.spread (id task) (p_id updates);
     task_id := Js.spread (task_id task) (p_task_id updates);
     original_filename :=
       Js.spread (original_filename task) (p_original_filename updates);
     status := Js.spread (status task) (p_status updates);
     progress := Js.spread (progress task) (p_progress updates);
     processing_stage :=
       Js.spread (processing_stage task) (p_processing_stage updates);
     error_message := Js.spread (error_message task) (p_error_message updates);
     file_size := Js.spread (file_size task) (p_file_size updates);
     output_size := Js.spread (output_size task) (p_output_size updates);
     created_at := Js.spread (created_at task) (p_created_at updates);
     started_at := Js.spread (started_at task) (p_started_at updates);
     completed_at := Js.spread (completed_at task) (p_completed_at updates);
     estimated_completion :=
       Js.spread (estimated_completion task) (p_estimated_completion updates);
     processing_time :=
       Js.spread (processing_time task) (p_processing_time updates);
     download_url := Js.spread (download_url task) (p_download_url updates) |}.

(** [task.status === 'pending' || task.status === 'processing'] *)
Definition is_active (s : TaskStatus) : bool :=
  match s with
  | pending | processing => true
  | _ => false
  end.

(** The statuses the specification calls terminal. *)
Definition is_terminal (s : TaskStatus) : bool :=
  match s with
  | completed | failed | cancelled => true
  | _ => false
  end.

(** [a === b] on two statuses. *)
Definition status_eqb (a b : TaskStatus) : bool :=
  match a, b with
  | pending, pending
  | processing, processing
  | completed, completed
  | failed, failed
  | cancelled, cancelled => true
  | _, _ => false
  end.

(** ** store/useTaskStore.ts *)

Module TaskStore.

Record TaskState : Type := mkTaskState {
  tasks : list Task;
  currentTask : option Task;
  isLoading : bool;
  error : option string
}.

Definition initial : TaskState :=
  {| tasks := []; currentTask := None; isLoading := false; error := None |}.


Definition addTask (task : Task) (state : TaskState) : TaskState :=
  {| tasks := task :: tasks state;
     currentTask := currentTask state;
     isLoading := isLoading state;
     error := error state |}.

Definition updateTask (taskId : string) (updates : PartialTask)
    (state : TaskState) : TaskState :=
  {| tasks :=
       map (fun task =>
              if String.eqb (task_id task) taskId
              then spread_task task updates
              else task)
           (tasks state);
     currentTask :=
       match currentTask state with
       | Some cur =>
           if String.eqb (task_id cur) taskId
           then Some (spread_task cur updates)
           else Some cur
       | None => None
       end;
     isLoading := isLoading state;
     error := error state |}.

Definition setCurrentTask (task : option Task) (state : TaskState) : TaskState :=
  {| tasks := tasks state;
     currentTask := task;
     isLoading := isLoading state;
     error := error state |}.


Definition getTaskById (taskId : string) (state : TaskState) : option Task :=
  find (fun task => String.eqb (task_id task) taskId) (tasks state).

Definition getActiveTasks (state : TaskState) : list Task :=
  List.filter (fun task => is_active (status task)) (tasks state).

Definition getTasksByStatus (st : TaskStatus) (state : TaskState) : list Task :=
  List.filter (fun task => status_eqb (status task) st) (tasks state).

Definition getCompletedTasks (state : TaskState) : list Task :=
  List.filter (fun task => status_eqb (status task) completed) (tasks state).

End TaskStore.

(** The callback [updateTask] maps over the task list, and applies to the
    current task: the task spread with the updates when its [task_id] is
    [taskId], the task itself otherwise. *)
Definition patch_if (taskId : string) (updates : PartialTask) (task : Task)
    : Task :=
  if String.eqb (task_id task) taskId then spread_task task updates else task.

(** ** store/useUIStore.ts *)

Module UIStore.

Inductive NotificationType : Type :=
  | success
  | error
  | warning
  | info.

Record Notification : Type := mkNotification {
  id : string;
  type : NotificationType;
  title : string;
  message : option string;
  duration : option Z;
  timestamp : Z
}.

(** [Omit<Notification, 'id' | 'timestamp'>] *)
Record NotificationInput : Type := mkNotificationInput {
  i_type : NotificationType;
  i_title : string;
  i_message : option string;
  i_duration : option Z
}.

Inductive Theme : Type :=
  | light
  | dark
  | system.

(** A callback handed to [setTimeout]: [get().removeNotification(id)]
    after [delay] milliseconds. *)
Record Timer : Type := mkTimer {
  delay : Z;
  target : string
}.

(** The store's state, and next to it the timers its actions have
    scheduled and that have not fired yet. *)
Record UIState : Type := mkUIState {
  sidebarOpen : bool;
  notifications : list Notification;
  isUploading : bool;
  uploadProgress : Z;
  taskDetailModalOpen : bool;
  selectedTaskId : option string;
  theme : Theme;
  timers : list Timer
}.

Definition initial : UIState :=
  {| sidebarOpen := true;
     notifications := [];
     isUploading := false;
     uploadProgress := 0;
     taskDetailModalOpen := false;
     selectedTaskId := None;
     theme := system;
     timers := [] |}.

Definition with_notifications (ns : list Notification) (ts : list Timer)
    (state : UIState) : UIState :=
  {| sidebarOpen := sidebarOpen state;
     notifications := ns;
     isUploading := isUploading state;
     uploadProgress := uploadProgress state;
     taskDetailModalOpen := taskDetailModalOpen state;
     selectedTaskId := selectedTaskId state;
     theme := theme state;
     timers := ts |}.

(** [addNotification]; [rid] is the outcome of
    [Math.random().toString(36).substring(2, 9)], [now] of [Date.now()]. *)
Definition addNotification (rid : string) (now : Z)
    (notification : NotificationInput) (state : UIState) : UIState :=
  let newNotification :=
    {| id := rid;
       type := i_type notification;
       title := i_title notification;
       message := i_message notification;
       duration := i_duration notification;
       timestamp := now |} in
  let duration := default 5000%Z (i_duration notification) in
  with_notifications
    (notifications state ++ [newNotification])
    (if (0 <? duration)%Z
     then timers state ++ [mkTimer duration rid]
     else timers state)
    state.

Definition removeNotification (nid : string) (state : UIState) : UIState :=
  with_notifications
    (List.filter (fun n => negb (String.eqb (id n) nid)) (notifications state))
    (timers state)
    state.

Definition clearNotifications (state : UIState) : UIState :=
  with_notifications [] (timers state) state.

(** The [k]-th pending timer fires: it leaves the pending timers and its
    callback runs. *)
Definition fire (k : nat) (state : UIState) : UIState :=
  match timers state !! k with
  | Some t =>
      removeNotification (target t)
        (with_notifications (notifications state) (delete k (timers state)) state)
  | None => state
  end.

Definition setUploading (uploading : bool) (state : UIState) : UIState :=
  {| sidebarOpen := sidebarOpen state;
     notifications := notifications state;
     isUploading := uploading;
     uploadProgress := uploadProgress state;
     taskDetailModalOpen := taskDetailModalOpen state;
     selectedTaskId := selectedTaskId state;
     theme := theme state;
     timers := timers state |}.

Definition setUploadProgress (p : Z) (state : UIState) : UIState :=
  {| sidebarOpen := sidebarOpen state;
     notifications := notifications state;
     isUploading := isUploading state;
     uploadProgress := p;
     taskDetailModalOpen := taskDetailModalOpen state;
     selectedTaskId := selectedTaskId state;
     theme := theme state;
     timers := timers state |}.

Definition setSidebarOpen (open : bool) (state : UIState) : UIState :=
  {| sidebarOpen := open;
     notifications := notifications state;
     isUploading := isUploading state;
     uploadProgress := uploadProgress state;
     taskDetailModalOpen := taskDetailModalOpen state;
     selectedTaskId := selectedTaskId state;
     theme := theme state;
     timers := timers state |}.

Definition toggleSidebar (state : UIState) : UIState :=
  setSidebarOpen (negb (sidebarOpen state)) state.

Definition openTaskDetail (taskId : string) (state : UIState) : UIState :=
  {| sidebarOpen := sidebarOpen state;
     notifications := notifications state;
     isUploading := isUploading state;
     uploadProgress := uploadProgress state;
     taskDetailModalOpen := true;
     selectedTaskId := Some taskId;
     theme := theme state;
     timers := timers state |}.

Definition closeTaskDetail (state : UIState) : UIState :=
  {| sidebarOpen := sidebarOpen state;
     notifications := notifications state;
     isUploading := isUploading state;
     uploadProgress := uploadProgress state;
     taskDetailModalOpen := false;
     selectedTaskId := None;
     theme := theme state;
     timers := timers state |}.

Definition setTheme (th : Theme) (state : UIState) : UIState :=
  {| sidebarOpen := sidebarOpen state;
     notifications := notifications state;
     isUploading := isUploading state;
     uploadProgress := uploadProgress state;
     taskDetailModalOpen := taskDetailModalOpen state;
     selectedTaskId := selectedTaskId state;
     theme := th;
     timers := timers state |}.

(** The task detail modal is open exactly when a task is selected. *)
Definition modal_consistent (state : UIState) : Prop :=
  taskDetailModalOpen state = true <-> is_Some (selectedTaskId state).

(** Pending timers fire one after the other; each number is a position
    among the timers pending at that moment. *)
Definition fire_all (ks : list nat) (state : UIState) : UIState :=
  foldl (fun st k => fire k st) state ks.

End UIStore.

(** ** react-query: mutations over the two stores *)

(** What the hooks read and write: both stores and the query client's
    record of invalidated query keys. *)
Record App : Type := mkApp {
  taskStore : TaskStore.TaskState;
  uiStore : UIStore.UIState;
  invalidated : list (list string)
}.

(** What one callback run draws from the environment. *)
Record Env : Type := mkEnv {
  random_id : string;
  Date_now : Z;
  now_iso : string
}.

(** An axios error, as far as the callbacks look into it:
    [error.response?.data?.error?.message] and [error.message]. *)
Record ApiError : Type := mkApiError {
  response_error_message : option string;
  err_message : option string
}.

Inductive Settled (D : Type) : Type :=
  | Fulfilled (data : D)
  | Rejected (err : ApiError).
Arguments Fulfilled {D} data.
Arguments Rejected {D} err.

(** The options of [useMutation]; a callback the hook does not give is the
    identity. *)
Record MutationOptions (V D : Type) : Type := mkMutation {
  onMutate : Env -> V -> App -> App;
  onSuccess : Env -> D -> V -> App -> App;
  onError : Env -> ApiError -> V -> App -> App;
  onSettled : App -> App
}.
Arguments onMutate {V D} _ _ _ _.
Arguments onSuccess {V D} _ _ _ _ _.
Arguments onError {V D} _ _ _ _ _.
Arguments onSettled {V D} _ _.

(** [mutate(variables)] up to the point where [mutationFn] has been called
    and its promise is pending. *)
Definition mutate_pending {V D : Type} (m : MutationOptions V D) (env : Env)
    (variables : V) (app : App) : App :=
  onMutate m env variables app.

(** The promise of [mutationFn] settles. *)
Definition mutate_settle {V D : Type} (m : MutationOptions V D) (env : Env)
    (variables : V) (outcome : Settled D) (app : App) : App :=
  onSettled m
    (match outcome with
     | Fulfilled data => onSuccess m env data variables app
     | Rejected err => onError m env err variables app
     end).

(** The whole of [mutate(variables)]. *)
Definition mutate {V D : Type} (m : MutationOptions V D) (env_pending env_settle : Env)
    (variables : V) (outcome : Settled D) (app : App) : App :=
  mutate_settle m env_settle variables outcome
    (mutate_pending m env_pending variables app).

Definition on_tasks (f : TaskStore.TaskState -> TaskStore.TaskState) (app : App) : App :=
  {| taskStore := f (taskStore app);
     uiStore := uiStore app;
     invalidated := invalidated app |}.

Definition on_ui (f : UIStore.UIState -> UIStore.UIState) (app : App) : App :=
  {| taskStore := taskStore app;
     uiStore := f (uiStore app);
     invalidated := invalidated app |}.

Definition invalidateQueries (queryKey : list string) (app : App) : App :=
  {| taskStore := taskStore app;
     uiStore := uiStore app;
     invalidated := invalidated app ++ [queryKey] |}.

Definition notify (env : Env) (n : UIStore.NotificationInput) (app : App) : App :=
  on_ui (UIStore.addNotification (random_id env) (Date_now env) n) app.

(** [error.response?.data?.error?.message || error.message] *)
Definition error_text (e : ApiError) : option string :=
  Js.or_opt (response_error_message e) (err_message e).

(** ** hooks/useTasks.ts *)

Module UseTasks.

(** The query keys [taskKeys.lists()] and [taskKeys.detail(id)]. *)
Definition taskKeys_lists : list string := ["tasks"; "list"].
Definition taskKeys_detail (tid : string) : list string := ["tasks"; "detail"; tid].

(** [refetchInterval] of [useTasksWithEffects]. The argument is the array
    reached by [query.state.data?.data?.tasks], [None] when a link of that
    chain is undefined; the result is the interval in milliseconds, [None]
    for [false]. *)
Definition useTasksWithEffects_refetchInterval (data : option (list Task))
    : option Z :=
  match data with
  | Some ts =>
      let hasActiveTasks := existsb (fun task => is_active (status task)) ts in
      if hasActiveTasks then Some 2000%Z else None
  | None => None
  end.


(** [refetchInterval] of [useTask] and of [useTaskWithEffects]; the argument
    is the task reached by [query.state.data?.data]. *)
Definition useTask_refetchInterval (data : option Task) : option Z :=
  match data with
  | Some t =>
      match status t with
      | processing | pending => Some 2000%Z
      | _ => None
      end
  | None => None
  end.

(** The first effect of [useTaskWithEffects]: the polled task becomes the
    current task and is written over the registry entry of [taskId]. *)
Definition useTaskWithEffects_effect (taskId : string) (data : option Task)
    (state : TaskStore.TaskState) : TaskStore.TaskState :=
  match data with
  | Some polled =>
      TaskStore.updateTask taskId (as_partial polled)
        (TaskStore.setCurrentTask (Some polled) state)
  | None => state
  end.

(** [{ status: 'cancelled' }] *)
Definition status_cancelled : PartialTask :=
  mkPartialTask None None None (Some cancelled) None None None None None None
    None None None None None.

(** The response of [apiService.cancelTask]; [onSuccess] does not read it. *)
Record CancelResponse : Type := mkCancelResponse {
  cancel_success : bool;
  cancel_message : option string
}.

(** [useCancelTask]: the mutation has an [onSuccess] and an [onError]
    callback and no other. *)
Definition useCancelTask : MutationOptions string CancelResponse :=
  {| onMutate := fun _ _ app => app;
     onSuccess := fun env _ taskId app =>
       let app := on_tasks (TaskStore.updateTask taskId status_cancelled) app in
       let app := invalidateQueries (taskKeys_detail taskId) app in
       let app := invalidateQueries taskKeys_lists app in
       notify env
         {| UIStore.i_type := UIStore.success;
            UIStore.i_title := "Task cancelled";
            UIStore.i_message :=
              Some ("Task " +:+ taskId +:+ " has been cancelled successfully.");
            UIStore.i_duration := None |}
         app;
     onError := fun env err _ app =>
       notify env
         {| UIStore.i_type := UIStore.error;
            UIStore.i_title := "Failed to cancel task";
            UIStore.i_message := error_text err;
            UIStore.i_duration := None |}
         app;
     onSettled := fun app => app |}.

(** The query key [taskKeys.statistics()]. *)
Definition taskKeys_statistics : list string := ["tasks"; "statistics"].


(** The response of [apiService.cleanupOldTasks]; [onSuccess] does not read
    it. *)
Record CleanupResponse : Type := mkCleanupResponse {
  cleanup_success : bool;
  cleanup_message : option string
}.

(** [useCleanupTasks]; the variable is the number of hours. *)
Definition useCleanupTasks : MutationOptions Z CleanupResponse :=
  {| onMutate := fun _ _ app => app;
     onSuccess := fun env _ _ app =>
       let app := invalidateQueries taskKeys_lists app in
       let app := invalidateQueries taskKeys_statistics app in
       notify env
         {| UIStore.i_type := UIStore.success;
            UIStore.i_title := "Cleanup initiated";
            UIStore.i_message := Some "Old tasks cleanup has been initiated.";
            UIStore.i_duration := None |}
         app;
     onError := fun env err _ app =>
       notify env
         {| UIStore.i_type := UIStore.error;
            UIStore.i_title := "Failed to cleanup tasks";
            UIStore.i_message := error_text err;
            UIStore.i_duration := None |}
         app;
     onSettled := fun app => app |}.

End UseTasks.

(** ** hooks/useUpload.ts *)

Module UseUpload.

(** [UploadResponse], as far as [useUploadFile] reads it. [status] is typed
    [string] and cast into [Task.status] by [as any]; the embedding keeps the
    values that cast stands for. *)
Record UploadData : Type := mkUploadData {
  u_task_id : option string;
  u_status : TaskStatus;
  u_original_filename : option string;
  u_file_size : option Z;
  u_created_at : option string
}.

Record UploadResponse : Type := mkUploadResponse {
  u_success : bool;
  u_data : UploadData;
  u_message : string
}.

(** A [File]; the callbacks never look into it. *)
Record File : Type := mkFile {
  file_name : string;
  file_bytes : Z
}.

(** The task object [onSuccess] builds from the upload response. *)
Definition newTask (env : Env) (d : UploadData) (tid : string) : Task :=
  {| id := 0;
     task_id := tid;
     original_filename := Js.or_else (u_original_filename d) "Unknown";
     status := u_status d;
     progress := 0;
     processing_stage := None;
     error_message := None;
     file_size := u_file_size d;
     output_size := None;
     created_at := Js.or_else (u_created_at d) (now_iso env);
     started_at := None;
     completed_at := None;
     estimated_completion := None;
     processing_time := None;
     download_url := None |}.

(** [useUploadFile] *)
Definition useUploadFile : MutationOptions File UploadResponse :=
  {| onMutate := fun env _ app =>
       let app := on_ui (UIStore.setUploading true) app in
       let app := on_ui (UIStore.setUploadProgress 0) app in
       notify env
         {| UIStore.i_type := UIStore.info;
            UIStore.i_title := "Upload started";
            UIStore.i_message := Some "Your file is being uploaded...";
            UIStore.i_duration := None |}
         app;
     onSuccess := fun env data _ app =>
       let app :=
         match u_task_id (u_data data) with
         | Some tid =>
             if Js.truthy (Some tid)
             then on_tasks (TaskStore.addTask (newTask env (u_data data) tid)) app
             else app
         | None => app
         end in
       let app :=
         notify env
           {| UIStore.i_type := UIStore.success;
              UIStore.i_title := "Upload successful";
              UIStore.i_message := Some (u_message data);
              UIStore.i_duration := None |}
           app in
       invalidateQueries ["tasks"] app;
     onError := fun env err _ app =>
       notify env
         {| UIStore.i_type := UIStore.error;
            UIStore.i_title := "Upload failed";
            UIStore.i_message := error_text err;
            UIStore.i_duration := None |}
         app;
     onSettled := fun app =>
       let app := on_ui (UIStore.setUploading false) app in
       on_ui (UIStore.setUploadProgress 0) app |}.

(** One element of [data.data.tasks] in the response of a batch upload;
    [status] as for [UploadData]. *)
Record BatchEntry : Type := mkBatchEntry {
  b_task_id : option string;
  b_status : TaskStatus;
  b_original_filename : option string;
  b_file_size : option Z;
  b_error : option string;
  b_filename : option string
}.

(** [UploadResponse], as far as [useUploadMultipleFiles] reads it. *)
Record BatchResponse : Type := mkBatchResponse {
  b_success : bool;
  b_tasks : option (list BatchEntry);
  b_total_files : option Z;
  b_successful_uploads : option Z;
  b_failed_uploads : option Z;
  b_message : string
}.

(** The task object built for one element of the batch response. The code
    reads the clock for each element; here the elements of one response
    share the reading of the callback run. *)
Definition newBatchTask (env : Env) (taskData : BatchEntry) (tid : string) : Task :=
  {| id := 0;
     task_id := tid;
     original_filename := Js.or_else (b_original_filename taskData) "Unknown";
     status := b_status taskData;
     progress := 0;
     processing_stage := None;
     error_message := None;
     file_size := b_file_size taskData;
     output_size := None;
     created_at := now_iso env;
     started_at := None;
     completed_at := None;
     estimated_completion := None;
     processing_time := None;
     download_url := None |}.

(** The body of [data.data.tasks.forEach]. *)
Definition addBatchTask (env : Env) (app : App) (taskData : BatchEntry) : App :=
  match b_task_id taskData with
  | Some tid =>
      if Js.truthy (Some tid)
      then on_tasks (TaskStore.addTask (newBatchTask env taskData tid)) app
      else app
  | None => app
  end.

(** [n || 0] printed in a template literal, for a count. *)
Definition count_text (n : option Z) : string :=
  pretty (default 0%Z n).

(** [useUploadMultipleFiles] *)
Definition useUploadMultipleFiles : MutationOptions (list File) BatchResponse :=
  {| onMutate := fun env _ app =>
       let app := on_ui (UIStore.setUploading true) app in
       let app := on_ui (UIStore.setUploadProgress 0) app in
       notify env
         {| UIStore.i_type := UIStore.info;
            UIStore.i_title := "Batch upload started";
            UIStore.i_message := Some "Your files are being uploaded...";
            UIStore.i_duration := None |}
         app;
     onSuccess := fun env data _ app =>
       let app :=
         match b_tasks data with
         | Some entries => foldl (addBatchTask env) app entries
         | None => app
         end in
       let app :=
         notify env
           {| UIStore.i_type := UIStore.success;
              UIStore.i_title := "Batch upload completed";
              UIStore.i_message :=
                Some (count_text (b_successful_uploads data) +:+ " of "
                      +:+ count_text (b_total_files data)
                      +:+ " files uploaded successfully.");
              UIStore.i_duration := None |}
           app in
       invalidateQueries ["tasks"] app;
     onError := fun env err _ app =>
       notify env
         {| UIStore.i_type := UIStore.error;
            UIStore.i_title := "Batch upload failed";
            UIStore.i_message := error_text err;
            UIStore.i_duration := None |}
         app;
     onSettled := fun app =>
       let app := on_ui (UIStore.setUploading false) app in
       on_ui (UIStore.setUploadProgress 0) app |}.

End UseUpload.

(** ** hooks/useRecentUploads.ts *)

Section UseRecentUploads.

(** [new Date(s).getTime()]: the time value of the date string [s] in
    milliseconds, [None] for [NaN] (a string that is no date). *)
Variable Date_getTime : string -> option Z.

(** [refetchInterval] of [useRecentUploads]; [activeTasks] is the hook's
    state of that name. The callback does not look at the query. *)
Definition useRecentUploads_refetchInterval (activeTasks : list string)
    : option Z :=
  if (0 <? length activeTasks)%nat then Some 2000%Z else None.

(** The comparator handed to [sort]:
    [new Date(b.created_at).getTime() - new Date(a.created_at).getTime()].
    A [NaN] outcome counts as [+0] for [Array.prototype.sort]. *)
Definition by_created_at_desc (a b : Task) : Z :=
  match Date_getTime (created_at b), Date_getTime (created_at a) with
  | Some tb, Some ta => (tb - ta)%Z
  | _, _ => 0%Z
  end.

(** [mergedTasks]; [data] is the array reached by [data?.data?.tasks]. *)
Definition mergedTasks (localTasks : list Task) (data : option (list Task))
    : list Task :=
  let apiTasks := default [] data in
  let apiTaskMap := Js.Map_new (map (fun task => (task_id task, task)) apiTasks) in
  let localOnlyTasks :=
    List.filter (fun localTask => negb (Js.Map_has apiTaskMap (task_id localTask)))
      localTasks in
  let allTasks := localOnlyTasks ++ apiTasks in
  Js.Array_sort by_created_at_desc allTasks.

(** The effect that recomputes the [activeTasks] state from [mergedTasks]. *)
Definition activeTasks_of (merged : list Task) : list string :=
  map task_id (List.filter (fun task => is_active (status task)) merged).

(** [hoursDiff]: the quotient is taken in the rationals. Both time values
    are integers that a double holds exactly. *)
Definition hoursDiff (now taskDate : Z) : Q :=
  (inject_Z (now - taskDate) / inject_Z (1000 * 60 * 60))%Q.

(** The predicate of the [recentTasks] filter; [now] is [new Date().getTime()].
    A comparison with [NaN] is false. *)
Definition is_recent (now : Z) (hours : Q) (task : Task) : bool :=
  match Date_getTime (created_at task) with
  | Some taskDate => Qle_bool (hoursDiff now taskDate) hours
  | None => false
  end.

Definition recentTasks (now : Z) (hours : Q) (merged : list Task) : list Task :=
  List.filter (is_recent now hours) merged.

(** The interval [useRecentUploads] polls with once its effect has brought
    [activeTasks] up to date with the local tasks and the snapshot. *)
Definition useRecentUploads_interval (localTasks : list Task)
    (data : option (list Task)) : option Z :=
  useRecentUploads_refetchInterval (activeTasks_of (mergedTasks localTasks data)).

End UseRecentUploads.

Section UseRecentUploadsOrder.

Variable Date_getTime : string -> option Z.

(** [localOnlyTasks], the intermediate result of [mergedTasks]. *)
Definition localOnlyTasks (localTasks apiTasks : list Task) : list Task :=
  let apiTaskMap := Js.Map_new (map (fun task => (task_id task, task)) apiTasks) in
  List.filter (fun localTask => negb (Js.Map_has apiTaskMap (task_id localTask)))
    localTasks.

(** Both tasks have a date and [a] is not older than [b]. *)
Definition newer_first (a b : Task) : Prop :=
  match Date_getTime (created_at a), Date_getTime (created_at b) with
  | Some ta, Some tb => (tb <= ta)%Z
  | _, _ => False
  end.

(** The task's [created_at] is a date. *)
Definition dated (task : Task) : Prop :=
  is_Some (Date_getTime (created_at task)).

(** The task's date is the time value [t]. *)
Definition created_on (t : Z) (task : Task) : bool :=
  bool_decide (Date_getTime (created_at task) = Some t).

End UseRecentUploadsOrder.

(** [tasksByStatus]: the object the [reduce] builds, as the function from a
    status to the array under that key, [None] for a key the object lacks. *)
Definition tasksByStatus (recent : list Task) : TaskStatus -> option (list Task) :=
  foldl
    (fun acc task =>
       let group := default [] (acc (status task)) in
       fun st => if status_eqb st (status task) then Some (group ++ [task])
                 else acc st)
    (fun _ => None)
    recent.

(** [hasActiveTasks], as [useRecentUploads] returns it. *)
Definition useRecentUploads_hasActiveTasks (activeTasks : list string) : bool :=
  (0 <? length activeTasks)%nat.

(** ** hooks/useHistory.ts *)

Module UseHistory.

Definition historyKeys_lists : list string := ["history"; "list"].
Definition historyKeys_statistics : list string := ["history"; "statistics"].

Inductive ExportFormat : Type :=
  | json
  | csv.

Definition format_text (f : ExportFormat) : string :=
  match f with
  | json => "json"
  | csv => "csv"
  end.

(** The variables of the export mutation. *)
Record ExportVariables : Type := mkExportVariables {
  e_format : option ExportFormat;
  e_days : option Z;
  e_operationType : option string
}.

(** The variables of the cleanup mutation. *)
Record CleanupVariables : Type := mkCleanupVariables {
  c_days : option Z;
  c_operationType : option string;
  c_status : option string
}.

(** The response body of either call; the callbacks do not read it. *)
Record HistoryResponse : Type := mkHistoryResponse {
  h_success : bool;
  h_message : option string
}.

(** [useExportHistory] *)
Definition useExportHistory : MutationOptions ExportVariables HistoryResponse :=
  {| onMutate := fun _ _ app => app;
     onSuccess := fun env _ variables app =>
       notify env
         {| UIStore.i_type := UIStore.success;
            UIStore.i_title := "Export completed";
            UIStore.i_message :=
              Some ("History exported successfully in "
                    +:+ Js.or_else (format_text <$> e_format variables) "json"
                    +:+ " format");
            UIStore.i_duration := None |}
         app;
     onError := fun env err _ app =>
       notify env
         {| UIStore.i_type := UIStore.error;
            UIStore.i_title := "Export failed";
            UIStore.i_message := error_text err;
            UIStore.i_duration := None |}
         app;
     onSettled := fun app => app |}.

(** [useCleanupHistory] *)
Definition useCleanupHistory : MutationOptions CleanupVariables HistoryResponse :=
  {| onMutate := fun _ _ app => app;
     onSuccess := fun env _ _ app =>
       let app := invalidateQueries historyKeys_lists app in
       let app := invalidateQueries historyKeys_statistics app in
       notify env
         {| UIStore.i_type := UIStore.success;
            UIStore.i_title := "Cleanup completed";
            UIStore.i_message := Some "History cleanup completed successfully";
            UIStore.i_duration := None |}
         app;
     onError := fun env err _ app =>
       notify env
         {| UIStore.i_type := UIStore.error;
            UIStore.i_title := "Cleanup failed";
            UIStore.i_message := error_text err;
            UIStore.i_duration := None |}
         app;
     onSettled := fun app => app |}.

End UseHistory.

(** ** components/TaskList.tsx, RecentUploads.tsx, TaskDetailModal.tsx,
    HistoryView *)

Module Components.

(** [canCancel] *)
Definition canCancel (task : Task) : bool :=
  match status task with
  | pending | processing => true
  | _ => false
  end.

(** [canDownload], as a condition: [task.status === 'completed' &&
    task.download_url]. *)
Definition canDownload (task : Task) : bool :=
  status_eqb (status task) completed && Js.truthy (download_url task).

(** Every character of [s] passes [p]. *)
Fixpoint string_forall (p : Ascii.ascii -> bool) (s : string) : bool :=
  match s with
  | EmptyString => true
  | String c rest => p c && string_forall p rest
  end.

(** The character class of the pattern: neither a slash nor a dot. *)
Definition extension_char (c : Ascii.ascii) : bool :=
  negb (Ascii.eqb c "/"%char) && negb (Ascii.eqb c "."%char).

(** [name.replace(/\.[^/.]+$/, '')]: the leftmost place where a dot is
    followed, up to the end of the string, by one or more characters that
    are neither slash nor dot, is where the string is cut. The string is
    taken byte by byte; dot and slash are single bytes and no part of any
    other character. *)
Fixpoint strip_extension (name : string) : string :=
  match name with
  | EmptyString => EmptyString
  | String c rest =>
      if Ascii.eqb c "."%char && negb (String.eqb rest EmptyString)
         && string_forall extension_char rest
      then EmptyString
      else String c (strip_extension rest)
  end.

(** The [filename] of [handleDownload]. *)
Definition download_filename (task : Task) : string :=
  strip_extension (original_filename task) +:+ ".mid".

(** The update [toggleExpanded] hands to [setExpandedItems]. *)
Definition toggleExpanded (item_id : Z) (prev : list Z) : list Z :=
  if existsb (Z.eqb item_id) prev
  then List.filter (fun item => negb (Z.eqb item item_id)) prev
  else prev ++ [item_id].

End Components.

(** ** What the mutations are checked against *)

(** A failed call leaves the task store and the invalidated keys as they
    were before [mutate], and queues, behind what [onMutate] queued, one
    error notification with the text of the error. *)
Definition surfaces_failure {V D : Type} (m : MutationOptions V D) : Prop :=
  forall env_pending env_settle variables err app,
    let app' := mutate m env_pending env_settle variables (Rejected err) app in
    taskStore app' = taskStore app /\
    invalidated app' = invalidated app /\
    exists n,
      UIStore.notifications (uiStore app')
        = UIStore.notifications
            (uiStore (mutate_pending m env_pending variables app)) ++ [n] /\
      UIStore.id n = random_id env_settle /\
      UIStore.type n = UIStore.error /\
      UIStore.message n = error_text err.

(** The task store is the same after [mutate] as before, whatever the
    outcome of the call. *)
Definition keeps_task_store {V D : Type} (m : MutationOptions V D) : Prop :=
  forall env_pending env_settle variables outcome app,
    taskStore (mutate m env_pending env_settle variables outcome app)
    = taskStore app.

(** The tasks a batch response gives rise to, in the order of the response:
    one for each element with a non-empty [task_id]. *)
Definition batch_tasks (env : Env) (entries : list UseUpload.BatchEntry)
    : list Task :=
  omap (fun taskData =>
          match UseUpload.b_task_id taskData with
          | Some tid =>
              if Js.truthy (Some tid)
              then Some (UseUpload.newBatchTask env taskData tid)
              else None
          | None => None
          end)
       entries.

(** ** Sample data *)

Module Sample.

Definition task (tid : string) (st : TaskStatus) (created : string) : Task :=
  {| id := 0;
     task_id := tid;
     original_filename := "song.mp3";
     status := st;
     progress := 0;
     processing_stage := None;
     error_message := None;
     file_size := Some 1024%Z;
     output_size := None;
     created_at := created;
     started_at := None;
     completed_at := None;
     estimated_completion := None;
     processing_time := None;
     download_url := None |}.

(** A clock for the samples: three date strings with their time values,
    every other string being no date. *)
Definition getTime (s : string) : option Z :=
  if String.eqb s "1970-01-01T00:00:00.005Z" then Some 5%Z
  else if String.eqb s "1970-01-01T00:00:00.008Z" then Some 8%Z
  else if String.eqb s "1970-01-01T00:00:00.010Z" then Some 10%Z
  else None.

Definition t5 : string := "1970-01-01T00:00:00.005Z".
Definition t8 : string := "1970-01-01T00:00:00.008Z".
Definition t10 : string := "1970-01-01T00:00:00.010Z".

(** The tasks of the specification's second scenario; [C'] is the
    snapshot's copy of [C]. *)
Definition B : Task := task "B" pending t10.
Definition C : Task := task "C" pending t5.
Definition C' : Task := task "C" processing t5.
Definition D : Task := task "D" completed t8.

Definition env : Env :=
  {| random_id := "k3j9x2a"; Date_now := 1700000000000; now_iso := t10 |}.

Definition store (ts : list Task) : TaskStore.TaskState :=
  {| TaskStore.tasks := ts;
     TaskStore.currentTask := None;
     TaskStore.isLoading := false;
     TaskStore.error := None |}.

Definition app (ts : list Task) : App :=
  {| taskStore := store ts; uiStore := UIStore.initial; invalidated := [] |}.

Definition network_error : ApiError :=
  {| response_error_message := None; err_message := Some "Network Error" |}.

Definition note (nid : string) : UIStore.Notification :=
  {| UIStore.id := nid;
     UIStore.type := UIStore.info;
     UIStore.title := "Upload started";
     UIStore.message := None;
     UIStore.duration := None;
     UIStore.timestamp := 1700000000000 |}.

Definition ui (ns : list UIStore.Notification) : UIStore.UIState :=
  UIStore.with_notifications ns [] UIStore.initial.

End Sample.

(** * Properties *)

(** ** Task registry *)

Section Registry.

Import TaskStore.

Implicit Types (state : TaskState) (task : Task) (updates : PartialTask).

Lemma map_as_fmap {A B : Type} (f : A -> B) (l : list A) : map f l = f <$> l.
Proof. reflexivity. Qed.

Lemma updateTask_lookup taskId updates state (i : nat) :
  tasks (updateTask taskId updates state) !! i =
  (fun task => if String.eqb (task_id task) taskId
               then spread_task task updates else task) <$> (tasks state !! i).
Proof. cbn [updateTask tasks]. rewrite map_as_fmap. apply list_lookup_fmap. Qed.

Lemma updateTask_length taskId updates state :
  length (tasks (updateTask taskId updates state)) = length (tasks state).
Proof. cbn [updateTask tasks]. apply length_map. Qed.

Lemma updateTask_absent taskId updates (l : list Task) :
  taskId ∉ map task_id l ->
  map (fun task => if String.eqb (task_id task) taskId
                   then spread_task task updates else task) l = l.
Proof.
  induction l as [|t l IH]; intros Hnot; [reflexivity|].
  cbn [map] in *. apply not_elem_of_cons in Hnot as [Hne Hl].
  destruct (String.eqb_spec (task_id t) taskId) as [Heq|_].
  - congruence.
  - f_equal. apply IH, Hl.
Qed.

(** C10. [updateTask], for a known or an unknown [taskId], keeps the number
    of tasks and the position of each; a task whose [task_id] differs from
    [taskId] is left as it was; the task whose [task_id] is [taskId], and the
    current task when its [task_id] is [taskId], are replaced by their spread
    with [updates]; the other parts of the state are untouched. *)
Theorem updateTask_frame taskId updates state :
  length (tasks (updateTask taskId updates state)) = length (tasks state) /\
  (forall (i : nat) task,
     tasks state !! i = Some task -> task_id task <> taskId ->
     tasks (updateTask taskId updates state) !! i = Some task) /\
  (forall (i : nat) task,
     tasks state !! i = Some task -> task_id task = taskId ->
     tasks (updateTask taskId updates state) !! i
       = Some (spread_task task updates)) /\
  currentTask (updateTask taskId updates state)
    = (fun cur => if String.eqb (task_id cur) taskId
                  then spread_task cur updates else cur) <$> currentTask state /\
  isLoading (updateTask taskId updates state) = isLoading state /\
  error (updateTask taskId updates state) = error state.
Proof.
  split; [apply updateTask_length|].
  split; [|split].
  - intros i task Hi Hne. rewrite updateTask_lookup, Hi. cbn.
    destruct (String.eqb_spec (task_id task) taskId); congruence.
  - intros i task Hi Heq. rewrite updateTask_lookup, Hi. cbn.
    destruct (String.eqb_spec (task_id task) taskId); congruence.
  - cbn [updateTask currentTask isLoading error].
    destruct (currentTask state) as [cur|]; cbn; [|auto].
    destruct (String.eqb (task_id cur) taskId); auto.
Qed.

Lemma updateTask_frame_witness :
  let a := Sample.task "a" processing Sample.t5 in
  let b := Sample.task "b" pending Sample.t8 in
  let state := updateTask "b" UseTasks.status_cancelled (Sample.store [a; b]) in
  tasks state !! 0%nat = Some a /\
  tasks state !! 1%nat = Some (spread_task b UseTasks.status_cancelled).
Proof.
  intros a b state.
  destruct (updateTask_frame "b" UseTasks.status_cancelled (Sample.store [a; b]))
    as (_ & Hother & Hsame & _).
  split.
  - apply Hother; [reflexivity | discriminate].
  - apply Hsame; reflexivity.
Defined.

(** C8. [updateTask] with a [taskId] that no task of the list has leaves the
    task list as it is, hence its length and every entry, and leaves the
    loading flag and the error alone; being a function of the state, it has
    no failing case. *)
Theorem updateTask_unknown_id taskId updates state :
  taskId ∉ map task_id (tasks state) ->
  tasks (updateTask taskId updates state) = tasks state /\
  length (tasks (updateTask taskId updates state)) = length (tasks state) /\
  isLoading (updateTask taskId updates state) = isLoading state /\
  error (updateTask taskId updates state) = error state.
Proof.
  intros Hnot. split; [|split; [apply updateTask_length | split; reflexivity]].
  cbn [updateTask tasks]. apply updateTask_absent, Hnot.
Qed.

Lemma updateTask_unknown_id_witness :
  let a := Sample.task "a" processing Sample.t5 in
  tasks (updateTask "zzz" UseTasks.status_cancelled (Sample.store [a])) = [a].
Proof.
  intros a.
  apply (updateTask_unknown_id "zzz" UseTasks.status_cancelled (Sample.store [a])).
  cbn. intros Hin. apply list_elem_of_singleton in Hin. discriminate Hin.
Defined.

(** With an unknown [taskId] that is not the current task's either, the
    whole state is unchanged. *)
Lemma updateTask_unknown_everywhere taskId updates state :
  taskId ∉ map task_id (tasks state) ->
  (forall cur, currentTask state = Some cur -> task_id cur <> taskId) ->
  updateTask taskId updates state = state.
Proof.
  intros Hnot Hcur. destruct state as [ts cur l e]. unfold updateTask. cbn in *.
  rewrite (updateTask_absent _ _ _ Hnot). f_equal.
  destruct cur as [c|]; [|reflexivity].
  destruct (String.eqb_spec (task_id c) taskId) as [Heq|_]; [|reflexivity].
  exfalso. exact (Hcur c eq_refl Heq).
Qed.

(** C6, as the code has it. [addTask] puts the task at the front of the list
    whether or not an entry with its [task_id] exists, and leaves the
    existing entries and the rest of the state as they were; over a list
    with unique [task_id]s, the result has unique [task_id]s exactly when
    the new [task_id] was absent. *)
Theorem addTask_prepends task state :
  tasks (addTask task state) = task :: tasks state /\
  currentTask (addTask task state) = currentTask state /\
  isLoading (addTask task state) = isLoading state /\
  error (addTask task state) = error state /\
  (NoDup (map task_id (tasks state)) ->
   (NoDup (map task_id (tasks (addTask task state)))
    <-> task_id task ∉ map task_id (tasks state))).
Proof.
  repeat (split; [reflexivity|]).
  intros Hnodup. cbn [addTask tasks map]. rewrite NoDup_cons. tauto.
Qed.

Lemma addTask_prepends_witness :
  let a := Sample.task "a" processing Sample.t5 in
  let b := Sample.task "b" pending Sample.t8 in
  NoDup (map task_id (tasks (addTask b (Sample.store [a])))).
Proof.
  intros a b.
  destruct (addTask_prepends b (Sample.store [a])) as (_ & _ & _ & _ & Hiff).
  apply Hiff.
  - cbn. apply NoDup_singleton.
  - cbn. intros Hin. apply list_elem_of_singleton in Hin. discriminate Hin.
Defined.

(** C6 as stated fails: adding a task whose [task_id] the list already has
    yields two entries with that [task_id], the old entry unmerged. *)
Lemma addTask_duplicates_known_id :
  let old := Sample.task "a" processing Sample.t5 in
  let new := Sample.task "a" completed Sample.t5 in
  let state := addTask new (Sample.store [old]) in
  tasks state = [new; old] /\ ~ NoDup (map task_id (tasks state)).
Proof.
  intros old new state. split; [reflexivity|].
  cbn. intros Hnd. apply NoDup_cons in Hnd as [Hnot _].
  apply Hnot. apply list_elem_of_singleton. reflexivity.
Qed.

(** C1, as the code has it. The effect of the single-task poll writes the
    polled task over the registry entry of [taskId]: the status of that entry
    becomes the polled status, whatever status the entry had, a terminal one
    included; entries with another [task_id] are left alone. *)
Theorem reconciliation_overwrites_status taskId polled state (i : nat) task :
  tasks state !! i = Some task ->
  (task_id task = taskId ->
   exists task',
     tasks (UseTasks.useTaskWithEffects_effect taskId (Some polled) state) !! i
       = Some task' /\
     status task' = status polled) /\
  (task_id task <> taskId ->
   tasks (UseTasks.useTaskWithEffects_effect taskId (Some polled) state) !! i
     = Some task).
Proof.
  intros Hi. cbn [UseTasks.useTaskWithEffects_effect].
  rewrite updateTask_lookup. cbn [setCurrentTask tasks]. rewrite Hi. cbn.
  destruct (String.eqb_spec (task_id task) taskId) as [Heq|Hne]; split;
    try congruence.
  intros _. eexists. split; [reflexivity|]. reflexivity.
Qed.

Lemma reconciliation_overwrites_status_witness :
  let held := Sample.task "a" completed Sample.t5 in
  let polled := Sample.task "a" failed Sample.t5 in
  exists task',
    tasks (UseTasks.useTaskWithEffects_effect "a" (Some polled)
             (Sample.store [held])) !! 0%nat = Some task' /\
    status task' = failed.
Proof.
  intros held polled.
  apply (reconciliation_overwrites_status "a" polled (Sample.store [held])
           0%nat held); reflexivity.
Defined.

(** C1 as stated fails: a cancelled task is back to processing after the
    poll result for it, reporting processing, has been applied. *)
Lemma reconciliation_regresses_terminal_status :
  let held := Sample.task "a" cancelled Sample.t5 in
  let polled := Sample.task "a" processing Sample.t5 in
  let before := Sample.store [held] in
  let after := UseTasks.useTaskWithEffects_effect "a" (Some polled) before in
  (status <$> tasks before !! 0%nat) = Some cancelled /\
  is_terminal cancelled = true /\
  (status <$> tasks after !! 0%nat) = Some processing.
Proof. repeat split. Qed.

End Registry.

(** ** Notification queue *)

Section Notifications.

Import UIStore.

Implicit Types (state : UIState) (n : Notification).

Lemma filter_twice {A : Type} (f : A -> bool) (l : list A) :
  List.filter f (List.filter f l) = List.filter f l.
Proof.
  induction l as [|x l IH]; [reflexivity|]. cbn.
  destruct (f x) eqn:Hx; [|exact IH]. cbn. rewrite Hx, IH. reflexivity.
Qed.

Lemma filter_none_out {A : Type} (f : A -> bool) (l : list A) :
  (forall x, x ∈ l -> f x = true) -> List.filter f l = l.
Proof.
  induction l as [|x l IH]; intros Hall; [reflexivity|]. cbn.
  rewrite (Hall x) by apply list_elem_of_here. f_equal.
  apply IH. intros y Hy. apply Hall. apply list_elem_of_further, Hy.
Qed.

Lemma elem_of_List_filter {A : Type} (f : A -> bool) (l : list A) (x : A) :
  x ∈ List.filter f l <-> x ∈ l /\ f x = true.
Proof. rewrite !list_elem_of_In. apply filter_In. Qed.

Lemma with_notifications_same state :
  with_notifications (notifications state) (timers state) state = state.
Proof. destruct state. reflexivity. Qed.

Lemma id_differs n nid : negb (String.eqb (id n) nid) = true <-> id n <> nid.
Proof.
  destruct (String.eqb_spec (id n) nid); cbn; split; congruence.
Qed.

Lemma removeNotification_absent nid state :
  nid ∉ map id (notifications state) -> removeNotification nid state = state.
Proof.
  intros Hnot. unfold removeNotification. rewrite filter_none_out.
  - apply with_notifications_same.
  - intros n Hn. apply id_differs. intros Heq. apply Hnot. subst nid.
    rewrite map_as_fmap. apply list_elem_of_fmap_2, Hn.
Qed.

Lemma removeNotification_twice nid state :
  removeNotification nid (removeNotification nid state)
  = removeNotification nid state.
Proof.
  unfold removeNotification. cbn. rewrite filter_twice. reflexivity.
Qed.

(** C9. Removing an id twice is the same as removing it once; removing an
    id the queue does not hold leaves the state as it is; an entry is in the
    queue after [removeNotification nid] exactly when it was there before
    and its id is not [nid]; and a removal that comes after the timer for
    the same id has fired changes nothing. The action is a function of the
    state and has no failing case. *)
Theorem removeNotification_idempotent nid state :
  removeNotification nid (removeNotification nid state)
    = removeNotification nid state /\
  (nid ∉ map id (notifications state) -> removeNotification nid state = state) /\
  (forall n, n ∈ notifications (removeNotification nid state)
             <-> n ∈ notifications state /\ id n <> nid) /\
  (forall (k : nat) t, timers state !! k = Some t -> target t = nid ->
     removeNotification nid (fire k state) = fire k state).
Proof.
  split; [apply removeNotification_twice|].
  split; [apply removeNotification_absent|].
  split.
  - intros n. cbn. rewrite elem_of_List_filter, id_differs. reflexivity.
  - intros k t Hk Ht. unfold fire. rewrite Hk, Ht.
    apply removeNotification_twice.
Qed.

Lemma removeNotification_idempotent_witness :
  let state :=
    addNotification "n2" 20 (mkNotificationInput info "Upload started" None None)
      (Sample.ui [Sample.note "n1"]) in
  removeNotification "zz" state = state /\
  removeNotification "n2" (fire 0 state) = fire 0 state.
Proof.
  intros state.
  destruct (removeNotification_idempotent "zz" state) as (_ & Habsent & _).
  destruct (removeNotification_idempotent "n2" state) as (_ & _ & _ & Hfired).
  split.
  - apply Habsent. cbn. intros Hin.
    apply elem_of_cons in Hin as [Hin|Hin]; [discriminate Hin|].
    apply list_elem_of_singleton in Hin. discriminate Hin.
  - apply (Hfired 0%nat (mkTimer 5000 "n2")); reflexivity.
Defined.

End Notifications.

(** ** JavaScript helpers: what the reconciler relies on *)

Section JsFacts.

Lemma Map_new_has_acc {V : Type} (entries : list (string * V))
    (m : gmap string V) (k : string) :
  is_Some (foldl (fun m kv => <[kv.1 := kv.2]> m) m entries !! k)
  <-> is_Some (m !! k) \/ k ∈ map fst entries.
Proof.
  revert m. induction entries as [|[k' v] entries IH]; intros m; cbn [foldl map].
  - rewrite elem_of_nil. tauto.
  - rewrite IH, elem_of_cons. cbn [fst snd].
    rewrite lookup_insert_is_Some. destruct (decide (k' = k)); intuition congruence.
Qed.

Lemma Map_has_new {V : Type} (entries : list (string * V)) (k : string) :
  Js.Map_has (Js.Map_new entries) k = true <-> k ∈ map fst entries.
Proof.
  unfold Js.Map_has, Js.Map_new. rewrite bool_decide_eq_true, Map_new_has_acc.
  rewrite lookup_empty. split; [|auto]. intros [[v Hv]|Hin]; [discriminate|exact Hin].
Qed.

Lemma sort_insert_perm {A : Type} (compareFn : A -> A -> Z) (x : A) (l : list A) :
  Js.sort_insert compareFn x l ≡ₚ x :: l.
Proof.
  induction l as [|y l IH]; cbn; [reflexivity|].
  destruct (compareFn y x <=? 0)%Z; [|reflexivity].
  rewrite IH. apply Permutation_swap.
Qed.

Lemma Array_sort_perm_acc {A : Type} (compareFn : A -> A -> Z) (l acc : list A) :
  foldl (fun acc x => Js.sort_insert compareFn x acc) acc l ≡ₚ acc ++ l.
Proof.
  revert acc. induction l as [|x l IH]; intros acc; cbn [foldl].
  - rewrite app_nil_r. reflexivity.
  - rewrite IH, sort_insert_perm. cbn. apply Permutation_middle.
Qed.

(** Sorting rearranges and neither drops nor repeats an element, whatever
    the comparator. *)
Lemma Array_sort_perm {A : Type} (compareFn : A -> A -> Z) (l : list A) :
  Js.Array_sort compareFn l ≡ₚ l.
Proof. unfold Js.Array_sort. apply Array_sort_perm_acc. Qed.

Lemma Qdiv_le_iff (a b c : Q) :
  (0 < b)%Q -> (a / b <= c)%Q <-> (a <= c * b)%Q.
Proof.
  intros Hb. split; [|apply Qle_shift_div_r, Hb].
  intros Hle. assert (Hnz : ~ (b == 0)%Q).
  { intros Hz. rewrite Hz in Hb. discriminate Hb. }
  rewrite <- (Qmult_div_r a b Hnz), (Qmult_comm b), (Qmult_comm c).
  rewrite (Qmult_comm (a / b)).
  apply Qmult_le_l; assumption.
Qed.

End JsFacts.

(** ** Reconciler *)

Section Reconciler.

Variable Date_getTime : string -> option Z.

Implicit Types (L R merged : list Task) (task : Task).

Lemma in_snapshot_map R (tid : string) :
  Js.Map_has (Js.Map_new (map (fun task => (task_id task, task)) R)) tid = true
  <-> tid ∈ map task_id R.
Proof.
  rewrite Map_has_new, map_map. reflexivity.
Qed.

(** The merged view holds the snapshot's tasks and the local tasks whose
    [task_id] the snapshot lacks, in some order. *)
Lemma mergedTasks_perm L R :
  mergedTasks Date_getTime L (Some R)
  ≡ₚ List.filter (fun localTask =>
                    negb (Js.Map_has
                            (Js.Map_new (map (fun task => (task_id task, task)) R))
                            (task_id localTask))) L ++ R.
Proof. unfold mergedTasks. cbn [default]. apply Array_sort_perm. Qed.

Lemma elem_of_mergedTasks L R task :
  task ∈ mergedTasks Date_getTime L (Some R)
  <-> (task ∈ L /\ task_id task ∉ map task_id R) \/ task ∈ R.
Proof.
  rewrite mergedTasks_perm, elem_of_app, elem_of_List_filter.
  rewrite negb_true_iff, <- not_true_iff_false, in_snapshot_map. reflexivity.
Qed.

Lemma local_only_ids L R :
  NoDup (map task_id L) ->
  NoDup (map task_id
           (List.filter (fun localTask =>
              negb (Js.Map_has
                      (Js.Map_new (map (fun task => (task_id task, task)) R))
                      (task_id localTask))) L)).
Proof.
  induction L as [|t L IH]; intros Hnd; cbn; [constructor|].
  cbn in Hnd. apply NoDup_cons in Hnd as [Hnot Hnd].
  destruct (negb _); [|auto]. cbn. apply NoDup_cons. split; [|auto].
  intros Hin. apply Hnot. rewrite map_as_fmap in *.
  apply list_elem_of_fmap in Hin as (t' & Heq & Hin).
  apply elem_of_List_filter in Hin as [Hin _].
  rewrite Heq. apply list_elem_of_fmap_2, Hin.
Qed.

(** C2. Over a local list and a snapshot that each have unique [task_id]s,
    the merged view has every [task_id] at most once, holds every task of
    the snapshot and every local task whose [task_id] the snapshot lacks,
    and an entry whose [task_id] the snapshot has is the snapshot's task. *)
Theorem mergedTasks_reconciles L R :
  NoDup (map task_id L) ->
  NoDup (map task_id R) ->
  NoDup (map task_id (mergedTasks Date_getTime L (Some R))) /\
  (forall task, task ∈ R -> task ∈ mergedTasks Date_getTime L (Some R)) /\
  (forall task, task ∈ L -> task_id task ∉ map task_id R ->
                task ∈ mergedTasks Date_getTime L (Some R)) /\
  (forall task, task ∈ mergedTasks Date_getTime L (Some R) ->
                task_id task ∈ map task_id R -> task ∈ R).
Proof.
  intros HL HR. split; [|split; [|split]].
  - rewrite map_as_fmap, mergedTasks_perm, fmap_app, <- !map_as_fmap.
    apply NoDup_app. split; [apply local_only_ids, HL|]. split; [|exact HR].
    intros tid Hin Hin'. rewrite map_as_fmap in Hin.
    apply list_elem_of_fmap in Hin as (t & -> & Hin).
    apply elem_of_List_filter in Hin as [_ Hin].
    rewrite negb_true_iff, <- not_true_iff_false, in_snapshot_map in Hin.
    exact (Hin Hin').
  - intros task Hin. apply elem_of_mergedTasks. right. exact Hin.
  - intros task Hin Hnot. apply elem_of_mergedTasks. left. split; assumption.
  - intros task Hin Hid. apply elem_of_mergedTasks in Hin as [[_ Hnot]|Hin].
    + contradiction.
    + exact Hin.
Qed.

Lemma is_recent_iff now (hours : Q) task (created : Z) :
  Date_getTime (created_at task) = Some created ->
  is_recent Date_getTime now hours task = true
  <-> (inject_Z (now - created) <= hours * inject_Z 3600000)%Q.
Proof.
  intros Hdate. unfold is_recent, hoursDiff. rewrite Hdate.
  rewrite Qle_bool_iff. apply Qdiv_le_iff. reflexivity.
Qed.

Lemma is_recent_hours now (hours : Z) task (created : Z) :
  Date_getTime (created_at task) = Some created ->
  is_recent Date_getTime now (inject_Z hours) task = true
  <-> (now - created <= hours * 3600000)%Z.
Proof.
  intros Hdate. rewrite (is_recent_iff _ _ _ _ Hdate).
  rewrite <- inject_Z_mult, <- Zle_Qle. reflexivity.
Qed.

(** C7. For a task created at time value [created], with the clock at [now]
    and a window of [hours] hours, the filter keeps the task exactly when
    [now - created <= hours * 3600000]; a task created exactly
    [hours * 3600000] milliseconds before [now] is kept, one created a
    millisecond earlier is dropped. *)
Theorem recentTasks_window now (hours : Z) merged task (created : Z) :
  Date_getTime (created_at task) = Some created ->
  (is_recent Date_getTime now (inject_Z hours) task = true
   <-> (now - created <= hours * 3600000)%Z) /\
  (task ∈ recentTasks Date_getTime now (inject_Z hours) merged
   <-> task ∈ merged /\ (now - created <= hours * 3600000)%Z) /\
  (created = (now - hours * 3600000)%Z ->
   is_recent Date_getTime now (inject_Z hours) task = true) /\
  (created = (now - hours * 3600000 - 1)%Z ->
   is_recent Date_getTime now (inject_Z hours) task = false).
Proof.
  intros Hdate. pose proof (is_recent_hours now hours task created Hdate) as Hiff.
  split; [exact Hiff|]. split; [|split].
  - unfold recentTasks. rewrite elem_of_List_filter, Hiff.
    reflexivity.
  - intros ->. apply Hiff. lia.
  - intros ->. apply not_true_iff_false. rewrite Hiff. lia.
Qed.

Lemma existsb_active (ts : list Task) :
  existsb (fun task => is_active (status task)) ts = true
  <-> exists task, task ∈ ts /\ is_active (status task) = true.
Proof.
  rewrite existsb_exists. split; intros (t & Hin & Hact); exists t;
    (split; [apply list_elem_of_In, Hin | exact Hact]).
Qed.

Lemma useRecentUploads_refetchInterval_spec (activeTasks : list string) :
  useRecentUploads_refetchInterval activeTasks
  = if bool_decide (activeTasks = []) then None else Some 2000%Z.
Proof. destruct activeTasks; reflexivity. Qed.

Lemma activeTasks_of_nil merged :
  activeTasks_of merged = []
  <-> ~ exists task, task ∈ merged /\ is_active (status task) = true.
Proof.
  unfold activeTasks_of. induction merged as [|t merged IH]; cbn.
  - split; [|reflexivity]. intros _ (t & Hin & _). apply elem_of_nil in Hin. exact Hin.
  - destruct (is_active (status t)) eqn:Hact; cbn.
    + split; [discriminate|]. intros Hno. exfalso. apply Hno. exists t.
      split; [apply list_elem_of_here | exact Hact].
    + rewrite IH. split; intros Hno (t' & Hin & Hact').
      * apply elem_of_cons in Hin as [->|Hin]; [congruence|].
        apply Hno. exists t'. split; assumption.
      * apply Hno. exists t'. split; [apply list_elem_of_further, Hin | exact Hact'].
Qed.

Lemma activeTasks_of_cons merged :
  activeTasks_of merged <> []
  -> exists task, task ∈ merged /\ is_active (status task) = true.
Proof.
  intros Hne. apply existsb_active.
  destruct (existsb _ merged) eqn:Hex; [reflexivity|].
  exfalso. apply Hne, activeTasks_of_nil. intros Hact.
  apply existsb_active in Hact. congruence.
Qed.

(** C3, as the code has it. The task-list poll of [useTasksWithEffects]
    answers 2000 exactly when its snapshot has a pending or processing task,
    and no refetch otherwise; the single-task poll does the same on the
    status of its one task. The poll of [useRecentUploads] answers 2000
    exactly when its view merged from the local tasks and the snapshot has a
    pending or processing task, that is when the snapshot has one or a local
    task missing from the snapshot is one, and no refetch otherwise. *)
Theorem polling_policy :
  (forall data,
     (UseTasks.useTasksWithEffects_refetchInterval data = Some 2000%Z
      <-> exists ts, data = Some ts /\
            exists task, task ∈ ts /\ is_active (status task) = true) /\
     (UseTasks.useTasksWithEffects_refetchInterval data = Some 2000%Z \/
      UseTasks.useTasksWithEffects_refetchInterval data = None)) /\
  (forall data,
     (UseTasks.useTask_refetchInterval data = Some 2000%Z
      <-> exists task, data = Some task /\ is_active (status task) = true) /\
     (UseTasks.useTask_refetchInterval data = Some 2000%Z \/
      UseTasks.useTask_refetchInterval data = None)) /\
  (forall L R,
     (useRecentUploads_interval Date_getTime L (Some R) = Some 2000%Z
      <-> (exists task, task ∈ R /\ is_active (status task) = true) \/
          (exists task, task ∈ L /\ (task_id task ∉ map task_id R) /\
                        is_active (status task) = true)) /\
     (useRecentUploads_interval Date_getTime L (Some R) = Some 2000%Z \/
      useRecentUploads_interval Date_getTime L (Some R) = None)).
Proof.
  split; [|split].
  - intros [ts|]; cbn.
    + destruct (existsb _ ts) eqn:Hex.
      * split; [|auto]. split; [|reflexivity]. intros _. exists ts.
        split; [reflexivity|]. apply existsb_active, Hex.
      * split; [|auto]. split; [discriminate|].
        intros (ts' & [= <-] & Hact). apply existsb_active in Hact. congruence.
    + split; [|auto]. split; [discriminate|]. intros (ts & Hts & _). discriminate Hts.
  - intros [t|]; cbn.
    + destruct (status t) eqn:Hst; cbn; (split; [|auto]);
        (split; [intros H; try discriminate H; exists t; rewrite Hst; split; reflexivity
                | intros (t' & [= <-] & Hact); rewrite Hst in Hact;
                  try discriminate Hact; reflexivity]).
    + split; [|auto]. split; [discriminate|]. intros (t & Ht & _). discriminate Ht.
  - intros L R. unfold useRecentUploads_interval.
    rewrite useRecentUploads_refetchInterval_spec.
    case_bool_decide as Hnil.
    + split; [|auto]. split; [discriminate|]. intros Hact. exfalso.
      apply activeTasks_of_nil in Hnil. apply Hnil.
      destruct Hact as [(t & Hin & Hact)|(t & Hin & Hnot & Hact)]; exists t;
        (split; [apply elem_of_mergedTasks; auto | exact Hact]).
    + split; [|auto]. split; [|reflexivity]. intros _.
      apply activeTasks_of_cons in Hnil as (t & Hin & Hact).
      apply elem_of_mergedTasks in Hin as [[Hin Hnot]|Hin]; [right|left];
        exists t; auto.
Qed.

End Reconciler.

(** *** The reconciler on the sample data *)

Section ReconcilerSamples.

Import Sample.

(** Local tasks B (t = 10) and C (t = 5), snapshot C (confirmed) and D
    (t = 8): the merged view is B, D, C with C the snapshot's. *)
Example mergedTasks_scenario :
  mergedTasks getTime [B; C] (Some [C'; D]) = [B; D; C'].
Proof. vm_compute. reflexivity. Qed.

(** A speculative task A, then a snapshot that has A with numeric id 17,
    processing at 40: the merged view is the snapshot's A alone. *)
Example mergedTasks_confirms_speculative :
  let A := task "A" pending t10 in
  let A' :=
    spread_task A
      (mkPartialTask (Some 17%Z) None None (Some processing) (Some 40%Z) None
         None None None None None None None None None) in
  mergedTasks getTime (TaskStore.tasks (TaskStore.addTask A (store [])))
    (Some [A'])
  = [A'].
Proof. vm_compute. reflexivity. Qed.

(** Tasks with equal dates keep their order: local-only ones first. *)
Example mergedTasks_stable :
  mergedTasks getTime [task "E" pending t8] (Some [D])
  = [task "E" pending t8; D].
Proof. vm_compute. reflexivity. Qed.

Lemma mergedTasks_reconciles_witness :
  NoDup (map task_id (mergedTasks getTime [B; C] (Some [C'; D]))) /\
  C' ∈ mergedTasks getTime [B; C] (Some [C'; D]) /\
  B ∈ mergedTasks getTime [B; C] (Some [C'; D]).
Proof.
  assert (HL : NoDup (map task_id [B; C])).
  { apply (bool_decide_unpack _). vm_compute. exact I. }
  assert (HR : NoDup (map task_id [C'; D])).
  { apply (bool_decide_unpack _). vm_compute. exact I. }
  destruct (mergedTasks_reconciles getTime [B; C] [C'; D] HL HR)
    as (Hnd & Hremote & Hlocal & _).
  split; [exact Hnd|]. split.
  - apply Hremote. apply list_elem_of_here.
  - apply Hlocal; [apply list_elem_of_here|].
    apply (bool_decide_unpack _). vm_compute. exact I.
Defined.

Lemma recentTasks_window_witness :
  let day := 86400000%Z in
  is_recent getTime (day + 10) (inject_Z 24) B = true /\
  is_recent getTime (day + 11) (inject_Z 24) B = false /\
  (B ∈ recentTasks getTime (day + 9) (inject_Z 24) [B; D]).
Proof.
  intros day. split; [|split].
  - destruct (recentTasks_window getTime (day + 10) 24 [] B 10 eq_refl)
      as (_ & _ & Hedge & _).
    apply Hedge. reflexivity.
  - destruct (recentTasks_window getTime (day + 11) 24 [] B 10 eq_refl)
      as (_ & _ & _ & Hout).
    apply Hout. reflexivity.
  - destruct (recentTasks_window getTime (day + 9) 24 [B; D] B 10 eq_refl)
      as (_ & Hin & _).
    apply Hin. split; [apply list_elem_of_here | unfold day; lia].
Defined.

Lemma polling_policy_witness :
  UseTasks.useTasksWithEffects_refetchInterval (Some [D; C']) = Some 2000%Z /\
  UseTasks.useTask_refetchInterval (Some B) = Some 2000%Z /\
  useRecentUploads_interval getTime [B] (Some [D]) = Some 2000%Z.
Proof.
  destruct (polling_policy getTime) as (Hlist & Hone & Hrecent).
  split; [|split].
  - apply (Hlist (Some [D; C'])). exists [D; C']. split; [reflexivity|].
    exists C'. split; [|reflexivity].
    apply list_elem_of_further, list_elem_of_here.
  - apply (Hone (Some B)). exists B. split; reflexivity.
  - apply (Hrecent [B] [D]). right. exists B.
    split; [apply list_elem_of_here|]. split; [|reflexivity].
    apply (bool_decide_unpack _). vm_compute. exact I.
Defined.

(** C3 as stated fails for the poll of [useRecentUploads]: its callback
    does not read the snapshot, and with a pending local task that the
    snapshot lacks it answers 2000 although no task of the snapshot is
    pending or processing. *)
Lemma recent_uploads_poll_ignores_snapshot :
  let snapshot := [D] in
  existsb (fun task => is_active (status task)) snapshot = false /\
  useRecentUploads_refetchInterval (activeTasks_of [B; D]) = Some 2000%Z /\
  useRecentUploads_interval getTime [B] (Some snapshot) = Some 2000%Z /\
  UseTasks.useTasksWithEffects_refetchInterval (Some snapshot) = None.
Proof. vm_compute. repeat split. Qed.

End ReconcilerSamples.

(** ** Action gateway *)

Section Gateway.

Import TaskStore.

Implicit Types (app : App) (env : Env).

(** C4, as the code has it. While the remote call of a cancel is pending,
    nothing has changed. When the call succeeds, the registry entry of the
    task is patched to cancelled, the single-task and the list views are
    invalidated and a success notification is queued. When the call fails,
    the task store is what it was before the cancel, no view is invalidated
    and an error notification is queued. *)
Theorem cancel_patches_on_success env_pending env_settle (taskId : string) app :
  mutate_pending UseTasks.useCancelTask env_pending taskId app = app /\
  (forall response,
     let app' := mutate UseTasks.useCancelTask env_pending env_settle taskId
                   (Fulfilled response) app in
     taskStore app'
       = updateTask taskId UseTasks.status_cancelled (taskStore app) /\
     invalidated app'
       = invalidated app
         ++ [UseTasks.taskKeys_detail taskId; UseTasks.taskKeys_lists] /\
     exists n,
       UIStore.notifications (uiStore app')
         = UIStore.notifications (uiStore app) ++ [n] /\
       UIStore.type n = UIStore.success) /\
  (forall err,
     let app' := mutate UseTasks.useCancelTask env_pending env_settle taskId
                   (Rejected err) app in
     taskStore app' = taskStore app /\
     invalidated app' = invalidated app /\
     exists n,
       UIStore.notifications (uiStore app')
         = UIStore.notifications (uiStore app) ++ [n] /\
       UIStore.type n = UIStore.error /\
       UIStore.message n = error_text err).
Proof.
  split; [reflexivity|]. split.
  - intros response app'. split; [reflexivity|]. split.
    + unfold app'. cbn. rewrite <- app_assoc. reflexivity.
    + eexists. split; reflexivity.
  - intros err app'. split; [reflexivity|]. split; [reflexivity|].
    eexists. split; [reflexivity|]. split; reflexivity.
Qed.

(** C4 as stated fails: the entry of a processing task is still processing
    while the cancel call is pending, and still processing after the call
    has failed; it is cancelled only after the call has succeeded. *)
Lemma cancel_is_not_optimistic :
  let app := Sample.app [Sample.task "a" processing Sample.t5] in
  let pending_app :=
    mutate_pending UseTasks.useCancelTask Sample.env "a" app in
  let failed_app :=
    mutate UseTasks.useCancelTask Sample.env Sample.env "a"
      (Rejected Sample.network_error) app in
  let done_app :=
    mutate UseTasks.useCancelTask Sample.env Sample.env "a"
      (Fulfilled (UseTasks.mkCancelResponse true None)) app in
  map status (tasks (taskStore pending_app)) = [processing] /\
  map status (tasks (taskStore failed_app)) = [processing] /\
  map UIStore.type (UIStore.notifications (uiStore failed_app)) = [UIStore.error] /\
  map status (tasks (taskStore done_app)) = [cancelled].
Proof. repeat split. Qed.

(** C5, as the code has it. While the upload call is pending, the task
    store is unchanged: no task has been inserted. When the call succeeds
    with a non-empty [task_id] in the response, one task is put at the front
    of the list, with numeric id 0, progress 0, and [task_id], status, file
    size, file name and creation date taken from the response (the name
    defaulting to Unknown, the date to the current time); when it succeeds
    without a [task_id], or fails, the task store is unchanged. *)
Theorem upload_inserts_on_success env_pending env_settle
    (file : UseUpload.File) app :
  taskStore (mutate_pending UseUpload.useUploadFile env_pending file app)
    = taskStore app /\
  (forall response tid,
     UseUpload.u_task_id (UseUpload.u_data response) = Some tid ->
     tid <> EmptyString ->
     exists task,
       tasks (taskStore (mutate UseUpload.useUploadFile env_pending env_settle
                           file (Fulfilled response) app))
         = task :: tasks (taskStore app) /\
       id task = 0%Z /\
       task_id task = tid /\
       status task = UseUpload.u_status (UseUpload.u_data response) /\
       progress task = 0%Z /\
       file_size task = UseUpload.u_file_size (UseUpload.u_data response) /\
       original_filename task
         = Js.or_else (UseUpload.u_original_filename (UseUpload.u_data response))
             "Unknown" /\
       created_at task
         = Js.or_else (UseUpload.u_created_at (UseUpload.u_data response))
             (now_iso env_settle)) /\
  (forall response,
     Js.truthy (UseUpload.u_task_id (UseUpload.u_data response)) = false ->
     taskStore (mutate UseUpload.useUploadFile env_pending env_settle file
                  (Fulfilled response) app)
       = taskStore app) /\
  (forall err,
     taskStore (mutate UseUpload.useUploadFile env_pending env_settle file
                  (Rejected err) app)
       = taskStore app).
Proof.
  split; [reflexivity|]. split; [|split].
  - intros response tid Htid Hne.
    exists (UseUpload.newTask env_settle (UseUpload.u_data response) tid).
    split; [|repeat split].
    cbn. rewrite Htid. cbn.
    destruct (String.eqb_spec tid EmptyString) as [Heq|_]; [contradiction|].
    reflexivity.
  - intros response Hfalsy. cbn.
    destruct (UseUpload.u_task_id (UseUpload.u_data response)) as [tid|];
      [|reflexivity].
    cbn in Hfalsy |- *. destruct (String.eqb tid EmptyString); [reflexivity|].
    discriminate Hfalsy.
  - intros err. reflexivity.
Qed.

Lemma upload_inserts_on_success_witness :
  let response :=
    UseUpload.mkUploadResponse true
      (UseUpload.mkUploadData (Some "a") processing None (Some 1024%Z) None)
      "File uploaded" in
  exists task,
    tasks (taskStore (mutate UseUpload.useUploadFile Sample.env Sample.env
                        (UseUpload.mkFile "song.mp3" 1024) (Fulfilled response)
                        (Sample.app [])))
      = [task] /\
    status task = processing /\ original_filename task = "Unknown".
Proof.
  intros response.
  destruct (upload_inserts_on_success Sample.env Sample.env
              (UseUpload.mkFile "song.mp3" 1024) (Sample.app []))
    as (_ & Hsuccess & _).
  destruct (Hsuccess response "a" eq_refl) as (task & Htasks & _ & _ & Hst & _ & _ & Hname & _).
  - discriminate.
  - exists task. split; [exact Htasks|]. split; [exact Hst | exact Hname].
Defined.

(** C5 as stated fails: while the upload call is pending the registry holds
    no task for the file; and the task inserted after a successful call
    carries the status of the response, here processing. *)
Lemma upload_is_not_speculative :
  let file := UseUpload.mkFile "song.mp3" 1024 in
  let response :=
    UseUpload.mkUploadResponse true
      (UseUpload.mkUploadData (Some "a") processing None (Some 1024%Z) None)
      "File uploaded" in
  tasks (taskStore (mutate_pending UseUpload.useUploadFile Sample.env file
                      (Sample.app []))) = [] /\
  map status
    (tasks (taskStore (mutate UseUpload.useUploadFile Sample.env Sample.env file
                         (Fulfilled response) (Sample.app []))))
    = [processing].
Proof. repeat split. Qed.

End Gateway.

(** ** Task registry: patches, lookups and status queries *)

Section RegistryMore.

Import TaskStore.

Implicit Types (state : TaskState) (task : Task) (updates : PartialTask).

Lemma spread_twice {A : Type} (o : A) (u : option A) :
  Js.spread (Js.spread o u) u = Js.spread o u.
Proof. destruct u; reflexivity. Qed.

Lemma spread_task_twice task updates :
  spread_task (spread_task task updates) updates = spread_task task updates.
Proof. unfold spread_task. cbn. rewrite !spread_twice. reflexivity. Qed.

Lemma spread_task_no_updates task : spread_task task no_updates = task.
Proof. destruct task. reflexivity. Qed.


Lemma updateTask_tasks taskId updates state :
  tasks (updateTask taskId updates state)
  = map (patch_if taskId updates) (tasks state).
Proof. reflexivity. Qed.

Lemma updateTask_currentTask taskId updates state :
  currentTask (updateTask taskId updates state)
  = patch_if taskId updates <$> currentTask state.
Proof.
  cbn [updateTask currentTask]. destruct (currentTask state) as [cur|]; cbn;
    [|reflexivity].
  unfold patch_if. destruct (String.eqb (task_id cur) taskId); reflexivity.
Qed.

Lemma TaskState_eq state state' :
  tasks state = tasks state' ->
  currentTask state = currentTask state' ->
  isLoading state = isLoading state' ->
  error state = error state' ->
  state = state'.
Proof. destruct state, state'. cbn. intros -> -> -> ->. reflexivity. Qed.

Lemma patch_if_twice taskId updates task :
  patch_if taskId updates (patch_if taskId updates task)
  = patch_if taskId updates task.
Proof.
  unfold patch_if.
  destruct (String.eqb (task_id task) taskId) eqn:Hid; [|rewrite Hid; reflexivity].
  destruct (String.eqb (task_id (spread_task task updates)) taskId);
    [apply spread_task_twice | reflexivity].
Qed.

Lemma patch_if_task_id taskId updates task :
  p_task_id updates = None \/ p_task_id updates = Some taskId ->
  task_id (patch_if taskId updates task) = task_id task.
Proof.
  intros Hkeep. unfold patch_if.
  destruct (String.eqb_spec (task_id task) taskId) as [Heq|_]; [|reflexivity].
  cbn. destruct Hkeep as [-> | ->]; cbn; congruence.
Qed.

(** X1. Applying the same patch to the same [taskId] twice gives the state
    that applying it once gives, for every patch, also one that renames the
    task. *)
Theorem updateTask_idempotent taskId updates state :
  updateTask taskId updates (updateTask taskId updates state)
  = updateTask taskId updates state.
Proof.
  apply TaskState_eq; try reflexivity.
  - rewrite !updateTask_tasks, map_map. apply map_ext. intros task.
    apply patch_if_twice.
  - rewrite !updateTask_currentTask.
    destruct (currentTask state) as [cur|]; cbn; [|reflexivity].
    f_equal. apply patch_if_twice.
Qed.

(** X2. A patch with no property, the object [{}], leaves the whole state as
    it is, whether or not the [taskId] is known. *)
Theorem updateTask_empty_patch taskId state :
  updateTask taskId no_updates state = state.
Proof.
  apply TaskState_eq; try reflexivity.
  - rewrite updateTask_tasks. rewrite <- (map_id (tasks state)) at 2.
    apply map_ext. intros task. unfold patch_if.
    destruct (String.eqb (task_id task) taskId);
      [apply spread_task_no_updates | reflexivity].
  - rewrite updateTask_currentTask.
    destruct (currentTask state) as [cur|]; cbn; [|reflexivity].
    f_equal. unfold patch_if.
    destruct (String.eqb (task_id cur) taskId);
      [apply spread_task_no_updates | reflexivity].
Qed.

(** X3. A patch that does not carry a [task_id], or carries the one it is
    applied to, leaves the sequence of [task_id]s of the list unchanged, and
    with it their uniqueness. *)
Theorem updateTask_keeps_ids taskId updates state :
  p_task_id updates = None \/ p_task_id updates = Some taskId ->
  map task_id (tasks (updateTask taskId updates state))
    = map task_id (tasks state) /\
  (NoDup (map task_id (tasks state)) ->
   NoDup (map task_id (tasks (updateTask taskId updates state)))).
Proof.
  intros Hkeep.
  assert (Hids : map task_id (tasks (updateTask taskId updates state))
                 = map task_id (tasks state)).
  { rewrite updateTask_tasks, map_map. apply map_ext. intros task.
    apply patch_if_task_id, Hkeep. }
  split; [exact Hids|]. rewrite Hids. auto.
Qed.

Lemma updateTask_keeps_ids_witness :
  map task_id
    (tasks (updateTask "B" UseTasks.status_cancelled
              (Sample.store [Sample.B; Sample.C])))
  = ["B"; "C"].
Proof.
  apply (updateTask_keeps_ids "B" UseTasks.status_cancelled
           (Sample.store [Sample.B; Sample.C])).
  left. reflexivity.
Defined.

(** X4. Patches to two different [taskId]s, neither of which carries a
    [task_id], can be applied in either order. *)
Theorem updateTask_commutes (a b : string) (u v : PartialTask) state :
  a <> b ->
  p_task_id u = None ->
  p_task_id v = None ->
  updateTask a u (updateTask b v state) = updateTask b v (updateTask a u state).
Proof.
  intros Hab Hu Hv.
  assert (Hpt : forall task,
             patch_if a u (patch_if b v task) = patch_if b v (patch_if a u task)).
  { intros task. unfold patch_if at 2 4.
    destruct (String.eqb_spec (task_id task) b) as [Hb|Hb];
      destruct (String.eqb_spec (task_id task) a) as [Ha|Ha].
    - congruence.
    - unfold patch_if.
      replace (task_id (spread_task task v)) with (task_id task)
        by (cbn; rewrite Hv; reflexivity).
      destruct (String.eqb_spec (task_id task) a); [contradiction|].
      destruct (String.eqb_spec (task_id task) b); [reflexivity|contradiction].
    - unfold patch_if.
      replace (task_id (spread_task task u)) with (task_id task)
        by (cbn; rewrite Hu; reflexivity).
      destruct (String.eqb_spec (task_id task) a); [|contradiction].
      destruct (String.eqb_spec (task_id task) b); [contradiction|reflexivity].
    - unfold patch_if.
      destruct (String.eqb_spec (task_id task) a); [contradiction|].
      destruct (String.eqb_spec (task_id task) b); [contradiction|reflexivity]. }
  apply TaskState_eq; try reflexivity.
  - rewrite !updateTask_tasks, !map_map. apply map_ext, Hpt.
  - rewrite !updateTask_currentTask.
    destruct (currentTask state) as [cur|]; cbn; [|reflexivity].
    f_equal. apply Hpt.
Qed.

Lemma updateTask_commutes_witness :
  let state := Sample.store [Sample.B; Sample.C] in
  let done := mkPartialTask None None None (Some completed) (Some 100%Z) None
                None None None None None None None None None in
  updateTask "B" UseTasks.status_cancelled (updateTask "C" done state)
  = updateTask "C" done (updateTask "B" UseTasks.status_cancelled state).
Proof.
  intros state done.
  apply updateTask_commutes; [discriminate | reflexivity | reflexivity].
Defined.

End RegistryMore.

Section RegistryQueries.

Import TaskStore.

Implicit Types (state : TaskState) (task : Task) (updates : PartialTask).

Lemma find_id_none (taskId : string) (l : list Task) :
  find (fun task => String.eqb (task_id task) taskId) l = None
  <-> taskId ∉ map task_id l.
Proof.
  induction l as [|t l IH]; cbn.
  - split; [|reflexivity]. intros _ Hin. apply elem_of_nil in Hin. exact Hin.
  - rewrite not_elem_of_cons.
    destruct (String.eqb_spec (task_id t) taskId) as [Heq|Hne].
    + split; [discriminate|]. intros [Hne _]. congruence.
    + rewrite IH. split; [intros Hl; split; [congruence|exact Hl] | tauto].
Qed.

Lemma find_id_some (taskId : string) (l : list Task) task :
  find (fun task => String.eqb (task_id task) taskId) l = Some task ->
  task ∈ l /\ task_id task = taskId.
Proof.
  intros Hfind. apply find_some in Hfind as [Hin Heq].
  split; [apply list_elem_of_In, Hin | apply String.eqb_eq, Heq].
Qed.

(** X5. [getTaskById] answers undefined exactly when no task of the list
    has the [task_id]; a task it answers is in the list and has the
    [task_id]. *)
Theorem getTaskById_spec taskId state :
  (getTaskById taskId state = None <-> taskId ∉ map task_id (tasks state)) /\
  (forall task, getTaskById taskId state = Some task ->
                task ∈ tasks state /\ task_id task = taskId).
Proof.
  split; [apply find_id_none|]. intros task. apply find_id_some.
Qed.

Lemma getTaskById_spec_witness :
  getTaskById "zzz" (Sample.store [Sample.B; Sample.C]) = None /\
  task_id Sample.C = "C".
Proof.
  destruct (getTaskById_spec "zzz" (Sample.store [Sample.B; Sample.C]))
    as [Hnone _].
  destruct (getTaskById_spec "C" (Sample.store [Sample.B; Sample.C]))
    as [_ Hsome].
  split.
  - apply Hnone. apply (bool_decide_unpack _). vm_compute. exact I.
  - apply (Hsome Sample.C). reflexivity.
Defined.

(** X6. After [addTask], [getTaskById] on the new task's [task_id] answers
    the new task, also when an older entry with that [task_id] is still in
    the list; on any other [task_id] it answers what it did before. *)
Theorem getTaskById_addTask task state :
  getTaskById (task_id task) (addTask task state) = Some task /\
  (forall other, other <> task_id task ->
     getTaskById other (addTask task state) = getTaskById other state).
Proof.
  unfold getTaskById. cbn [addTask tasks find]. split.
  - rewrite String.eqb_refl. reflexivity.
  - intros other Hne.
    destruct (String.eqb_spec (task_id task) other); [congruence|reflexivity].
Qed.

Lemma getTaskById_addTask_witness :
  getTaskById "B" (addTask Sample.C' (Sample.store [Sample.B; Sample.C]))
  = Some Sample.B /\
  getTaskById "C" (addTask Sample.C' (Sample.store [Sample.B; Sample.C]))
  = Some Sample.C'.
Proof.
  destruct (getTaskById_addTask Sample.C' (Sample.store [Sample.B; Sample.C]))
    as [Hnew Hother].
  split.
  - rewrite (Hother "B"); [reflexivity | discriminate].
  - exact Hnew.
Defined.

Lemma find_patch_if (taskId other : string) updates (l : list Task) :
  p_task_id updates = None ->
  find (fun task => String.eqb (task_id task) other)
    (map (patch_if taskId updates) l)
  = patch_if taskId updates
      <$> find (fun task => String.eqb (task_id task) other) l.
Proof.
  intros Hkeep. induction l as [|t l IH]; cbn; [reflexivity|].
  rewrite (patch_if_task_id taskId updates t (or_introl Hkeep)).
  destruct (String.eqb (task_id t) other); [reflexivity | exact IH].
Qed.

(** X7. After a patch that carries no [task_id], [getTaskById] on the
    patched [taskId] answers the former answer spread with the patch, and on
    any other [task_id] the former answer. *)
Theorem getTaskById_updateTask taskId updates state :
  p_task_id updates = None ->
  getTaskById taskId (updateTask taskId updates state)
    = (fun task => spread_task task updates) <$> getTaskById taskId state /\
  (forall other, other <> taskId ->
     getTaskById other (updateTask taskId updates state)
       = getTaskById other state).
Proof.
  intros Hkeep. unfold getTaskById. rewrite updateTask_tasks. split.
  - rewrite (find_patch_if _ _ _ _ Hkeep).
    destruct (find _ (tasks state)) as [t|] eqn:Hfind; cbn; [|reflexivity].
    apply find_id_some in Hfind as [_ Hid]. unfold patch_if.
    rewrite Hid, String.eqb_refl. reflexivity.
  - intros other Hne. rewrite (find_patch_if _ _ _ _ Hkeep).
    destruct (find _ (tasks state)) as [t|] eqn:Hfind; cbn; [|reflexivity].
    apply find_id_some in Hfind as [_ Hid]. unfold patch_if.
    destruct (String.eqb_spec (task_id t) taskId); [congruence|reflexivity].
Qed.

Lemma getTaskById_updateTask_witness :
  status <$> getTaskById "B"
               (updateTask "B" UseTasks.status_cancelled
                  (Sample.store [Sample.B; Sample.C]))
  = Some cancelled.
Proof.
  destruct (getTaskById_updateTask "B" UseTasks.status_cancelled
              (Sample.store [Sample.B; Sample.C]) eq_refl) as [Hsame _].
  rewrite Hsame. reflexivity.
Defined.

Lemma bucket_cons (st : TaskStatus) task (l : list Task) :
  List.filter (fun task => status_eqb (status task) st) (task :: l)
  = (if status_eqb (status task) st then [task] else [])
    ++ List.filter (fun task => status_eqb (status task) st) l.
Proof. cbn. destruct (status_eqb (status task) st); reflexivity. Qed.

(** X8. The five status queries split the task list: put one after the
    other, their answers hold the tasks of the list, each as often as the
    list does; the active tasks are the pending and the processing ones, and
    none of them is among the completed ones. *)
Theorem status_queries_partition state :
  getTasksByStatus pending state ++ getTasksByStatus processing state
    ++ getTasksByStatus completed state ++ getTasksByStatus failed state
    ++ getTasksByStatus cancelled state
    ≡ₚ tasks state /\
  getActiveTasks state
    ≡ₚ getTasksByStatus pending state ++ getTasksByStatus processing state /\
  (forall task, task ∈ getActiveTasks state -> task ∉ getCompletedTasks state).
Proof.
  unfold getTasksByStatus, getActiveTasks, getCompletedTasks.
  split; [|split].
  - induction (tasks state) as [|t l IH]; [reflexivity|].
    rewrite !bucket_cons. rewrite <- IH at 6.
    destruct (status t); cbn [status_eqb app];
      rewrite ?Permutation_middle; cbn; try reflexivity;
      repeat (rewrite !app_assoc; try (rewrite <- Permutation_middle);
              rewrite <- ?app_assoc); reflexivity.
  - induction (tasks state) as [|t l IH]; [reflexivity|].
    rewrite !bucket_cons. cbn [List.filter].
    destruct (status t); cbn [is_active status_eqb app]; rewrite ?IH;
      try reflexivity.
    apply Permutation_middle.
  - intros task Hact Hdone.
    apply elem_of_List_filter in Hact as [_ Hact].
    apply elem_of_List_filter in Hdone as [_ Hdone].
    destruct (status task); discriminate.
Qed.

Lemma status_queries_partition_witness :
  Sample.B ∉ TaskStore.getCompletedTasks (Sample.store [Sample.B; Sample.D]).
Proof.
  destruct (status_queries_partition (Sample.store [Sample.B; Sample.D]))
    as (_ & _ & Hdisjoint).
  apply Hdisjoint. apply elem_of_List_filter.
  split; [apply list_elem_of_here | reflexivity].
Defined.

End RegistryQueries.

(** ** Polls and the registry *)

Section Polls.

Import TaskStore.

Implicit Types (state : TaskState) (task polled : Task).

Lemma filter_nil_existsb {A : Type} (f : A -> bool) (l : list A) :
  List.filter f l = [] <-> existsb f l = false.
Proof.
  induction l as [|x l IH]; cbn; [tauto|].
  destruct (f x); cbn; [split; discriminate | exact IH].
Qed.





End Polls.

(** ** Action gateway: failures, flags, batches *)

Section GatewayMore.

Import TaskStore.

Implicit Types (app : App) (env : Env).

(** X11. For each of the six mutations (cancel, task cleanup, upload, batch
    upload, history export, history cleanup), a failed call leaves the task
    store and the invalidated query keys as they were, and queues exactly
    one error notification carrying the message of the error response or,
    without one, the message of the error. *)
Theorem failures_surface_once :
  surfaces_failure UseTasks.useCancelTask /\
  surfaces_failure UseTasks.useCleanupTasks /\
  surfaces_failure UseUpload.useUploadFile /\
  surfaces_failure UseUpload.useUploadMultipleFiles /\
  surfaces_failure UseHistory.useExportHistory /\
  surfaces_failure UseHistory.useCleanupHistory.
Proof.
  repeat split; try reflexivity;
    eexists; (split; [reflexivity|]); repeat split.
Qed.

(** X12. The task cleanup, the history export and the history cleanup never
    change the task store, whatever the outcome: tasks the server has
    deleted stay in the registry until a poll replaces them. A successful
    task cleanup invalidates the task lists and the task statistics, a
    successful history cleanup the history lists and the history
    statistics, a successful export nothing. *)
Theorem maintenance_mutations env_pending env_settle app :
  keeps_task_store UseTasks.useCleanupTasks /\
  keeps_task_store UseHistory.useExportHistory /\
  keeps_task_store UseHistory.useCleanupHistory /\
  (forall hours response,
     invalidated (mutate UseTasks.useCleanupTasks env_pending env_settle hours
                    (Fulfilled response) app)
     = invalidated app
       ++ [UseTasks.taskKeys_lists; UseTasks.taskKeys_statistics]) /\
  (forall variables response,
     invalidated (mutate UseHistory.useCleanupHistory env_pending env_settle
                    variables (Fulfilled response) app)
     = invalidated app
       ++ [UseHistory.historyKeys_lists; UseHistory.historyKeys_statistics]) /\
  (forall variables response,
     invalidated (mutate UseHistory.useExportHistory env_pending env_settle
                    variables (Fulfilled response) app)
     = invalidated app).
Proof.
  split; [intros ? ? ? [?|?] ?; reflexivity|].
  split; [intros ? ? ? [?|?] ?; reflexivity|].
  split; [intros ? ? ? [?|?] ?; reflexivity|].
  split; [|split].
  - intros hours response. cbn. rewrite <- app_assoc. reflexivity.
  - intros variables response. cbn. rewrite <- app_assoc. reflexivity.
  - intros variables response. reflexivity.
Qed.


Lemma addBatchTask_taskStore env (entries : list UseUpload.BatchEntry) app :
  tasks (taskStore (foldl (UseUpload.addBatchTask env) app entries))
  = rev (batch_tasks env entries) ++ tasks (taskStore app).
Proof.
  revert app. induction entries as [|e entries IH]; intros app; [reflexivity|].
  cbn [foldl]. rewrite IH. unfold batch_tasks, UseUpload.addBatchTask.
  cbn [omap list_omap].
  destruct (UseUpload.b_task_id e) as [tid|]; [|reflexivity].
  destruct (Js.truthy (Some tid)); [|reflexivity].
  cbn [rev on_tasks taskStore addTask tasks]. rewrite <- app_assoc. reflexivity.
Qed.

Lemma batch_tasks_length env (entries : list UseUpload.BatchEntry) :
  (length (batch_tasks env entries) <= length entries)%nat.
Proof.
  unfold batch_tasks. induction entries as [|e entries IH]; [reflexivity|].
  cbn in *. destruct (UseUpload.b_task_id e) as [tid|]; [|lia].
  destruct (negb (String.eqb tid EmptyString)); cbn; lia.
Qed.

(** X14. A successful batch upload puts one task in the registry for each
    element of the response that has a non-empty [task_id], and none for the
    others; the new tasks stand in front of the former ones in the reverse
    order of the response, each with numeric id 0, progress 0 and the
    current time as creation date. Without a [tasks] array in the response
    the registry is unchanged. *)
Theorem batch_upload_inserts env_pending env_settle
    (files : list UseUpload.File) (response : UseUpload.BatchResponse) app :
  let app' := mutate UseUpload.useUploadMultipleFiles env_pending env_settle
                files (Fulfilled response) app in
  tasks (taskStore app')
    = rev (batch_tasks env_settle (default [] (UseUpload.b_tasks response)))
      ++ tasks (taskStore app) /\
  (length (tasks (taskStore app'))
   <= length (default [] (UseUpload.b_tasks response))
      + length (tasks (taskStore app)))%nat /\
  (forall task,
     task ∈ batch_tasks env_settle (default [] (UseUpload.b_tasks response)) ->
     id task = 0%Z /\ progress task = 0%Z /\
     created_at task = now_iso env_settle /\ task_id task <> EmptyString).
Proof.
  intros app'.
  assert (Htasks : tasks (taskStore app')
                   = rev (batch_tasks env_settle
                            (default [] (UseUpload.b_tasks response)))
                     ++ tasks (taskStore app)).
  { unfold app'. cbn. destruct (UseUpload.b_tasks response) as [entries|];
      [|reflexivity].
    cbn. rewrite addBatchTask_taskStore. reflexivity. }
  split; [exact Htasks|]. split.
  - rewrite Htasks, length_app, length_rev.
    pose proof (batch_tasks_length env_settle
                  (default [] (UseUpload.b_tasks response))).
    lia.
  - intros task Hin. unfold batch_tasks in Hin.
    apply list_elem_of_omap in Hin as (e & _ & He).
    destruct (UseUpload.b_task_id e) as [tid|]; [|discriminate He].
    cbn in He. destruct (String.eqb_spec tid EmptyString) as [|Hne];
      [discriminate He|].
    cbn in He. injection He as <-. repeat split. exact Hne.
Qed.

Lemma batch_upload_inserts_witness :
  let entries :=
    [UseUpload.mkBatchEntry (Some "a") pending (Some "one.mp3") None None None;
     UseUpload.mkBatchEntry None pending None None (Some "not audio")
       (Some "two.txt");
     UseUpload.mkBatchEntry (Some "c") pending None None None None] in
  let response :=
    UseUpload.mkBatchResponse true (Some entries) (Some 3%Z) (Some 2%Z)
      (Some 1%Z) "Batch accepted" in
  map task_id
    (tasks (taskStore
              (mutate UseUpload.useUploadMultipleFiles Sample.env Sample.env []
                 (Fulfilled response) (Sample.app [Sample.B]))))
  = ["c"; "a"; "B"].
Proof.
  intros entries response.
  destruct (batch_upload_inserts Sample.env Sample.env [] response
              (Sample.app [Sample.B])) as [Htasks _].
  rewrite Htasks. reflexivity.
Defined.

End GatewayMore.

(** ** Notification queue: timers *)

Section NotificationTimers.

Import UIStore.

Implicit Types (state : UIState) (n : Notification) (input : NotificationInput).

Lemma List_filter_sublist {A : Type} (f : A -> bool) (l : list A) :
  List.filter f l `sublist_of` l.
Proof.
  induction l as [|x l IH]; cbn; [constructor|].
  destruct (f x); constructor; exact IH.
Qed.

Lemma delete_sublist {A : Type} (k : nat) (l : list A) :
  delete k l `sublist_of` l.
Proof.
  revert k. induction l as [|x l IH]; intros k; [destruct k; constructor|].
  destruct k as [|k]; cbn.
  - apply sublist_cons. reflexivity.
  - apply sublist_skip, IH.
Qed.

Lemma filter_swap {A : Type} (f g : A -> bool) (l : list A) :
  List.filter f (List.filter g l) = List.filter g (List.filter f l).
Proof.
  induction l as [|x l IH]; [reflexivity|]. cbn.
  destruct (g x) eqn:Hg, (f x) eqn:Hf; cbn; rewrite ?Hg, ?Hf, IH; reflexivity.
Qed.

Lemma fire_notifications (k : nat) state :
  notifications (fire k state) `sublist_of` notifications state /\
  timers (fire k state) `sublist_of` timers state.
Proof.
  unfold fire. destruct (timers state !! k) as [t|]; [|split; reflexivity].
  cbn. split; [apply List_filter_sublist | apply delete_sublist].
Qed.

(** X15. A notification added with a positive duration, or with none and so
    the default of 5000, gets a timer for its id behind the pending ones.
    When that timer fires, the queue is the former queue without the entries
    of that id and the pending timers are the former ones; with an id that
    the queue did not hold, the whole state is back to what it was before
    the notification was added. *)
Theorem notification_expires (rid : string) (now : Z) input state :
  (0 < default 5000 (i_duration input))%Z ->
  let added := addNotification rid now input state in
  let expired := fire (length (timers state)) added in
  timers added
    = timers state ++ [mkTimer (default 5000%Z (i_duration input)) rid] /\
  notifications expired
    = List.filter (fun n => negb (String.eqb (id n) rid)) (notifications state) /\
  timers expired = timers state /\
  (rid ∉ map id (notifications state) -> expired = state).
Proof.
  intros Hpos added expired.
  assert (Htimers : timers added
            = timers state ++ [mkTimer (default 5000%Z (i_duration input)) rid]).
  { unfold added, addNotification. cbn.
    apply Z.ltb_lt in Hpos. rewrite Hpos. reflexivity. }
  assert (Hexpired : expired
            = with_notifications
                (List.filter (fun n => negb (String.eqb (id n) rid))
                   (notifications state))
                (timers state) state).
  { unfold expired, fire. rewrite Htimers.
    rewrite list_lookup_middle by reflexivity. cbn [target].
    rewrite delete_middle, app_nil_r. unfold removeNotification. cbn.
    rewrite List.filter_app. cbn. rewrite String.eqb_refl. cbn.
    rewrite app_nil_r. reflexivity. }
  split; [exact Htimers|]. rewrite Hexpired. split; [reflexivity|].
  split; [reflexivity|].
  intros Hfresh. rewrite filter_none_out; [apply with_notifications_same|].
  intros n Hn. apply id_differs. intros Heq. apply Hfresh. subst rid.
  rewrite map_as_fmap. apply list_elem_of_fmap_2, Hn.
Qed.

Lemma notification_expires_witness :
  let state := Sample.ui [Sample.note "n1"] in
  let input := mkNotificationInput success "Task cancelled" None None in
  fire 0 (addNotification "n2" 20 input state) = state.
Proof.
  intros state input.
  apply (notification_expires "n2" 20 input state); [reflexivity|].
  cbn. intros Hin. apply list_elem_of_singleton in Hin. discriminate Hin.
Defined.

Lemma fire_keeps (rid : string) (k : nat) state :
  (forall t, t ∈ timers state -> target t <> rid) ->
  (exists n, n ∈ notifications state /\ id n = rid) ->
  (forall t, t ∈ timers (fire k state) -> target t <> rid) /\
  (exists n, n ∈ notifications (fire k state) /\ id n = rid).
Proof.
  intros Htimers (n & Hin & Hid). unfold fire.
  destruct (timers state !! k) as [t|] eqn:Hk; [|split; [exact Htimers|eauto]].
  cbn. split.
  - intros t' Hin'. apply Htimers.
    eapply elem_of_sublist; [exact Hin' | apply delete_sublist].
  - exists n. split; [|exact Hid]. apply elem_of_List_filter.
    split; [exact Hin|]. apply id_differs. rewrite Hid. intros Heq.
    apply (Htimers t); [|congruence].
    apply list_elem_of_lookup. eauto.
Qed.

(** X16. A notification added with a duration of zero or less gets no
    timer; if no pending timer is for its id, it is still in the queue after
    any number of timers have fired, in any order. *)
Theorem sticky_notification (rid : string) (now d : Z) input state
    (ks : list nat) :
  i_duration input = Some d ->
  (d <= 0)%Z ->
  (forall t, t ∈ timers state -> target t <> rid) ->
  timers (addNotification rid now input state) = timers state /\
  exists n,
    n ∈ notifications (fire_all ks (addNotification rid now input state)) /\
    id n = rid.
Proof.
  intros Hd Hle Hnone.
  assert (Htimers : timers (addNotification rid now input state) = timers state).
  { unfold addNotification. cbn. rewrite Hd. cbn.
    destruct (Z.ltb_spec 0 d); [lia|reflexivity]. }
  split; [exact Htimers|].
  assert (Hinv : (forall t, t ∈ timers (addNotification rid now input state) ->
                            target t <> rid) /\
                 (exists n, n ∈ notifications (addNotification rid now input state)
                            /\ id n = rid)).
  { split; [rewrite Htimers; exact Hnone|]. eexists. split.
    - cbn. apply elem_of_app. right. apply list_elem_of_here.
    - reflexivity. }
  revert Hinv. generalize (addNotification rid now input state).
  unfold fire_all. induction ks as [|k ks IH]; intros st [Ht Hn]; [exact Hn|].
  cbn [foldl]. apply IH. apply fire_keeps; assumption.
Qed.

Lemma sticky_notification_witness :
  let input := mkNotificationInput error "Upload failed" None (Some 0%Z) in
  exists n,
    n ∈ notifications
          (fire_all [0%nat; 0%nat; 3%nat]
             (addNotification "e1" 30 input
                (addNotification "n2" 20
                   (mkNotificationInput info "Upload started" None None)
                   (Sample.ui [Sample.note "n1"])))) /\
    id n = "e1".
Proof.
  intros input.
  apply (sticky_notification "e1" 30 0 input
           (addNotification "n2" 20
              (mkNotificationInput info "Upload started" None None)
              (Sample.ui [Sample.note "n1"]))
           [0%nat; 0%nat; 3%nat]); [reflexivity | lia |].
  cbn. intros t Hin. apply list_elem_of_singleton in Hin. subst t. discriminate.
Defined.

(** X17. Timers only take away: after any timers have fired, the queue is
    the former queue with some entries left out, order kept, and so are the
    pending timers; after [clearNotifications] the queue is empty and stays
    empty whatever timers fire later. *)
Theorem timers_only_remove (ks : list nat) state :
  notifications (fire_all ks state) `sublist_of` notifications state /\
  timers (fire_all ks state) `sublist_of` timers state /\
  notifications (fire_all ks (clearNotifications state)) = [].
Proof.
  assert (Hsub : forall st,
             notifications (fire_all ks st) `sublist_of` notifications st /\
             timers (fire_all ks st) `sublist_of` timers st).
  { unfold fire_all. induction ks as [|k ks IH]; intros st; [split; reflexivity|].
    cbn [foldl]. destruct (IH (fire k st)) as [Hn Ht].
    destruct (fire_notifications k st) as [Hn' Ht'].
    split; etrans; eassumption. }
  destruct (Hsub state) as [Hn Ht]. split; [exact Hn|]. split; [exact Ht|].
  destruct (Hsub (clearNotifications state)) as [Hc _].
  apply sublist_nil_r in Hc. exact Hc.
Qed.

(** X18. Two removals can be made in either order, and a removal leaves the
    remaining entries in their order. *)
Theorem removeNotification_commutes (a b : string) state :
  removeNotification a (removeNotification b state)
    = removeNotification b (removeNotification a state) /\
  notifications (removeNotification a state) `sublist_of` notifications state.
Proof.
  split; [|apply List_filter_sublist].
  unfold removeNotification. cbn. rewrite filter_swap. reflexivity.
Qed.

End NotificationTimers.

Section ModalInvariant.

Import UIStore.

Lemma fire_all_modal (ks : list nat) (state : UIState) :
  modal_consistent state -> modal_consistent (fire_all ks state).
Proof.
  revert state. unfold fire_all.
  induction ks as [|k ks IH]; intros state Hinv; [exact Hinv|].
  cbn [foldl]. apply IH. unfold fire.
  destruct (timers state !! k); exact Hinv.
Qed.

(** X19. The task detail modal is open exactly when a task is selected:
    this holds in the initial state, [openTaskDetail] and [closeTaskDetail]
    establish it from any state, and every other action of the store, and
    the firing of a timer, keeps it. *)
Theorem modal_selection_invariant (state : UIState) :
  modal_consistent initial /\
  (forall taskId, modal_consistent (openTaskDetail taskId state)) /\
  modal_consistent (closeTaskDetail state) /\
  (modal_consistent state ->
   (forall open, modal_consistent (setSidebarOpen open state)) /\
   modal_consistent (toggleSidebar state) /\
   (forall rid now input, modal_consistent (addNotification rid now input state)) /\
   (forall nid, modal_consistent (removeNotification nid state)) /\
   modal_consistent (clearNotifications state) /\
   (forall uploading, modal_consistent (setUploading uploading state)) /\
   (forall p, modal_consistent (setUploadProgress p state)) /\
   (forall th, modal_consistent (setTheme th state)) /\
   (forall ks, modal_consistent (fire_all ks state))).
Proof.
  split; [|split; [|split]].
  - unfold modal_consistent. cbn.
    split; [discriminate | intros [? ?]; discriminate].
  - intros taskId. unfold modal_consistent. cbn. split; [eauto | reflexivity].
  - unfold modal_consistent. cbn.
    split; [discriminate | intros [? ?]; discriminate].
  - intros Hinv. repeat (split; [intros; exact Hinv|]).
    intros ks. apply fire_all_modal, Hinv.
Qed.

Lemma modal_selection_invariant_witness :
  modal_consistent
    (fire_all [0%nat]
       (addNotification "n2" 20
          (mkNotificationInput info "Upload started" None None)
          (openTaskDetail "a" initial))).
Proof.
  destruct (modal_selection_invariant initial) as (_ & Hopen & _).
  destruct (modal_selection_invariant
              (addNotification "n2" 20
                 (mkNotificationInput info "Upload started" None None)
                 (openTaskDetail "a" initial)))
    as (_ & _ & _ & Hkeep).
  apply Hkeep. apply (Hopen "a").
Defined.

End ModalInvariant.

(** ** Reconciler: order, stability, windows, groups *)

Section ReconcilerOrder.

Variable Date_getTime : string -> option Z.

Implicit Types (L R merged : list Task) (task : Task).


Lemma compare_dated (a b : Task) (ta tb : Z) :
  Date_getTime (created_at a) = Some ta ->
  Date_getTime (created_at b) = Some tb ->
  by_created_at_desc Date_getTime a b = (tb - ta)%Z /\
  (newer_first Date_getTime a b <-> (tb <= ta)%Z).
Proof.
  intros Ha Hb. unfold by_created_at_desc, newer_first. rewrite Ha, Hb.
  split; reflexivity.
Qed.

Lemma sort_insert_dated task (l : list Task) :
  dated Date_getTime task -> Forall (dated Date_getTime) l ->
  Forall (dated Date_getTime) (Js.sort_insert (by_created_at_desc Date_getTime) task l).
Proof.
  intros Hx Hl. rewrite sort_insert_perm. constructor; assumption.
Qed.

Lemma sort_insert_sorted task (l : list Task) :
  dated Date_getTime task -> Forall (dated Date_getTime) l ->
  StronglySorted (newer_first Date_getTime) l ->
  StronglySorted (newer_first Date_getTime)
    (Js.sort_insert (by_created_at_desc Date_getTime) task l).
Proof.
  intros [tx Hx] Hl Hsorted.
  induction l as [|y l IH]; cbn [Js.sort_insert].
  - repeat constructor.
  - apply Forall_cons in Hl as [[ty Hy] Hl].
    apply StronglySorted_cons in Hsorted as [Hy_first Hsorted].
    destruct (compare_dated y task ty tx Hy Hx) as [Hcmp Hnewer].
    rewrite Hcmp. destruct (Z.leb_spec (tx - ty) 0) as [Hle|Hgt].
    + apply StronglySorted_cons. split; [|apply IH; assumption].
      rewrite sort_insert_perm. constructor; [|exact Hy_first].
      apply Hnewer. lia.
    + apply StronglySorted_cons. split.
      * constructor.
        { apply (compare_dated task y tx ty Hx Hy). lia. }
        { apply Forall_forall. intros z Hz.
          pose proof (proj1 (Forall_forall _ _) Hy_first z Hz) as Hyz.
          pose proof (proj1 (Forall_forall _ _) Hl z Hz) as [tz Hz'].
          apply (compare_dated y z ty tz Hy Hz') in Hyz.
          apply (compare_dated task z tx tz Hx Hz'). lia. }
      * apply StronglySorted_cons. split; assumption.
Qed.

Lemma Array_sort_sorted_acc (l acc : list Task) :
  Forall (dated Date_getTime) acc -> Forall (dated Date_getTime) l ->
  StronglySorted (newer_first Date_getTime) acc ->
  StronglySorted (newer_first Date_getTime)
    (foldl (fun acc x => Js.sort_insert (by_created_at_desc Date_getTime) x acc)
       acc l).
Proof.
  revert acc. induction l as [|x l IH]; intros acc Hacc Hl Hsorted; [exact Hsorted|].
  apply Forall_cons in Hl as [Hx Hl]. cbn [foldl]. apply IH.
  - apply sort_insert_dated; assumption.
  - exact Hl.
  - apply sort_insert_sorted; assumption.
Qed.

Lemma filter_sorted {A : Type} (R' : relation A) (f : A -> bool) (l : list A) :
  StronglySorted R' l -> StronglySorted R' (List.filter f l).
Proof.
  induction l as [|x l IH]; intros Hsorted; [constructor|].
  apply StronglySorted_cons in Hsorted as [Hx Hsorted]. cbn.
  destruct (f x); [|apply IH, Hsorted].
  apply StronglySorted_cons. split; [|apply IH, Hsorted].
  apply Forall_forall. intros y Hy. apply elem_of_List_filter in Hy as [Hy _].
  exact (proj1 (Forall_forall _ _) Hx y Hy).
Qed.

Lemma merged_dated L R :
  (forall task, task ∈ L ++ R -> is_Some (Date_getTime (created_at task))) ->
  Forall (dated Date_getTime) (localOnlyTasks L R ++ R).
Proof.
  intros Hall. apply Forall_forall. intros task Hin. apply Hall.
  apply elem_of_app in Hin as [Hin|Hin]; apply elem_of_app; [left|right; exact Hin].
  apply elem_of_List_filter in Hin as [Hin _]. exact Hin.
Qed.

(** X20. When every local task and every task of the snapshot has a date,
    the merged view is ordered newest first: of two entries, the one that
    comes first is not the older one. The tasks shown for a window, taken
    from the merged view, are in that order too. *)
Theorem mergedTasks_newest_first L R (now : Z) (hours : Q) :
  (forall task, task ∈ L ++ R -> is_Some (Date_getTime (created_at task))) ->
  StronglySorted (newer_first Date_getTime)
    (mergedTasks Date_getTime L (Some R)) /\
  StronglySorted (newer_first Date_getTime)
    (recentTasks Date_getTime now hours (mergedTasks Date_getTime L (Some R))).
Proof.
  intros Hall.
  assert (Hsorted : StronglySorted (newer_first Date_getTime)
                      (mergedTasks Date_getTime L (Some R))).
  { unfold mergedTasks, Js.Array_sort. cbn [default].
    apply Array_sort_sorted_acc; [constructor | | constructor].
    apply (merged_dated L R Hall). }
  split; [exact Hsorted|]. apply filter_sorted, Hsorted.
Qed.

Lemma sort_insert_stable (t : Z) task (l : list Task) :
  dated Date_getTime task -> Forall (dated Date_getTime) l ->
  StronglySorted (newer_first Date_getTime) l ->
  List.filter (created_on Date_getTime t)
    (Js.sort_insert (by_created_at_desc Date_getTime) task l)
  = List.filter (created_on Date_getTime t) l
    ++ List.filter (created_on Date_getTime t) [task].
Proof.
  intros [tx Hx] Hl Hsorted.
  induction l as [|y l IH]; cbn [Js.sort_insert]; [reflexivity|].
  apply Forall_cons in Hl as [[ty Hy] Hl].
  apply StronglySorted_cons in Hsorted as [Hy_first Hsorted].
  destruct (compare_dated y task ty tx Hy Hx) as [Hcmp _].
  rewrite Hcmp. destruct (Z.leb_spec (tx - ty) 0) as [Hle|Hgt].
  - cbn [List.filter]. rewrite (IH Hl Hsorted).
    destruct (created_on Date_getTime t y); reflexivity.
  - cbn [List.filter app].
    destruct (created_on Date_getTime t task) eqn:Hxt;
      [|rewrite app_nil_r; reflexivity].
    apply bool_decide_eq_true in Hxt.
    assert (Htx : tx = t) by congruence.
    assert (Hnone : List.filter (created_on Date_getTime t) (y :: l) = []).
    { apply filter_nil_existsb. apply not_true_iff_false. intros Hex.
      apply existsb_exists in Hex as (z & Hz & Hzt).
      apply list_elem_of_In in Hz. apply bool_decide_eq_true in Hzt.
      apply elem_of_cons in Hz as [->|Hz].
      - assert (ty = t) by congruence. lia.
      - pose proof (proj1 (Forall_forall _ _) Hy_first z Hz) as Hyz.
        apply (compare_dated y z ty t Hy Hzt) in Hyz. lia. }
    cbn [List.filter] in Hnone. rewrite Hnone. reflexivity.
Qed.

Lemma Array_sort_stable_acc (t : Z) (l acc : list Task) :
  Forall (dated Date_getTime) acc -> Forall (dated Date_getTime) l ->
  StronglySorted (newer_first Date_getTime) acc ->
  List.filter (created_on Date_getTime t)
    (foldl (fun acc x => Js.sort_insert (by_created_at_desc Date_getTime) x acc)
       acc l)
  = List.filter (created_on Date_getTime t) acc
    ++ List.filter (created_on Date_getTime t) l.
Proof.
  revert acc. induction l as [|x l IH]; intros acc Hacc Hl Hsorted.
  - cbn. rewrite app_nil_r. reflexivity.
  - apply Forall_cons in Hl as [Hx Hl]. cbn [foldl].
    rewrite IH; [| apply sort_insert_dated; assumption | exact Hl
                 | apply sort_insert_sorted; assumption].
    rewrite (sort_insert_stable t x acc Hx Hacc Hsorted), <- app_assoc.
    f_equal. cbn. destruct (created_on Date_getTime t x); reflexivity.
Qed.

(** X21. The sort is stable on tasks with dates: the entries of the merged
    view that share a date stand in the order they had before the sort, the
    local-only tasks in the order of the registry first, then the tasks of
    the snapshot in the order of the snapshot. *)
Theorem mergedTasks_stable_order L R (t : Z) :
  (forall task, task ∈ L ++ R -> is_Some (Date_getTime (created_at task))) ->
  List.filter (created_on Date_getTime t) (mergedTasks Date_getTime L (Some R))
  = List.filter (created_on Date_getTime t) (localOnlyTasks L R)
    ++ List.filter (created_on Date_getTime t) R.
Proof.
  intros Hall. unfold mergedTasks, Js.Array_sort. cbn [default].
  rewrite Array_sort_stable_acc;
    [| constructor | apply (merged_dated L R Hall) | constructor].
  cbn [List.filter app]. apply List.filter_app.
Qed.

(** X22. Without any assumption on uniqueness or dates: a [task_id] is in
    the merged view exactly when it is in the registry or in the snapshot,
    so no task is lost from sight by merging; the merged view has at most as
    many entries as both lists together; and before any snapshot has arrived
    it holds the local tasks, each once. *)
Theorem mergedTasks_ids L R (tid : string) :
  (tid ∈ map task_id (mergedTasks Date_getTime L (Some R))
   <-> tid ∈ map task_id L \/ tid ∈ map task_id R) /\
  (length (mergedTasks Date_getTime L (Some R)) <= length L + length R)%nat /\
  mergedTasks Date_getTime L None ≡ₚ L.
Proof.
  split; [|split].
  - rewrite !map_as_fmap, !list_elem_of_fmap. split.
    + intros (task & -> & Hin).
      apply elem_of_mergedTasks in Hin as [[Hin _]|Hin]; [left|right];
        exists task; auto.
    + intros [(task & -> & Hin)|(task & -> & Hin)].
      * destruct (decide (task_id task ∈ map task_id R)) as [HinR|Hnot].
        { rewrite map_as_fmap in HinR.
          apply list_elem_of_fmap in HinR as (task' & Heq & Hin').
          exists task'. split; [exact Heq|]. apply elem_of_mergedTasks. auto. }
        { exists task. split; [reflexivity|]. apply elem_of_mergedTasks. auto. }
      * exists task. split; [reflexivity|]. apply elem_of_mergedTasks. auto.
  - rewrite mergedTasks_perm, length_app.
    pose proof (sublist_length _ _ (List_filter_sublist
      (fun localTask =>
         negb (Js.Map_has
                 (Js.Map_new (map (fun task => (task_id task, task)) R))
                 (task_id localTask))) L)).
    lia.
  - unfold mergedTasks. rewrite Array_sort_perm. cbn [default map].
    rewrite app_nil_r. rewrite filter_none_out; [reflexivity|].
    intros task _. reflexivity.
Qed.

(** X23. A task whose [created_at] is no date is never among the tasks
    shown, whatever the window. The tasks shown are tasks of the merged
    view, in its order; a wider window shows every task a narrower one
    shows; and every shown task that is pending or processing has its
    [task_id] in [activeTasks], which is taken from the merged view before
    the window is applied. *)
Theorem recentTasks_window_facts (now : Z) (hours hours' : Q) merged task :
  (Date_getTime (created_at task) = None ->
   task ∉ recentTasks Date_getTime now hours merged) /\
  recentTasks Date_getTime now hours merged `sublist_of` merged /\
  ((hours <= hours')%Q ->
   task ∈ recentTasks Date_getTime now hours merged ->
   task ∈ recentTasks Date_getTime now hours' merged) /\
  (task ∈ recentTasks Date_getTime now hours merged ->
   is_active (status task) = true ->
   task_id task ∈ activeTasks_of merged).
Proof.
  unfold recentTasks. split; [|split; [|split]].
  - intros Hnone Hin. apply elem_of_List_filter in Hin as [_ Hrecent].
    unfold is_recent in Hrecent. rewrite Hnone in Hrecent. discriminate.
  - apply List_filter_sublist.
  - intros Hle Hin. apply elem_of_List_filter in Hin as [Hin Hrecent].
    apply elem_of_List_filter. split; [exact Hin|].
    unfold is_recent in *. destruct (Date_getTime (created_at task)); [|discriminate].
    apply Qle_bool_iff. apply Qle_bool_iff in Hrecent.
    eapply Qle_trans; eassumption.
  - intros Hin Hact. apply elem_of_List_filter in Hin as [Hin _].
    unfold activeTasks_of. rewrite map_as_fmap. apply list_elem_of_fmap_2.
    apply elem_of_List_filter. split; assumption.
Qed.

End ReconcilerOrder.

Section ReconcilerOrderSamples.

Import Sample.

Lemma sample_tasks_dated (l : list Task) :
  forallb (fun task => bool_decide (is_Some (getTime (created_at task)))) l = true ->
  forall task, task ∈ l -> is_Some (getTime (created_at task)).
Proof.
  intros Hall task Hin. apply list_elem_of_In in Hin.
  rewrite forallb_forall in Hall. specialize (Hall task Hin).
  apply bool_decide_eq_true in Hall. exact Hall.
Qed.

Lemma mergedTasks_newest_first_witness :
  StronglySorted (newer_first getTime)
    (mergedTasks getTime [B; C] (Some [C'; D])).
Proof.
  apply (mergedTasks_newest_first getTime [B; C] [C'; D] 0 (inject_Z 24)).
  apply sample_tasks_dated. vm_compute. reflexivity.
Defined.

Lemma mergedTasks_stable_order_witness :
  let E := task "E" pending t8 in
  List.filter (created_on getTime 8) (mergedTasks getTime [B; E] (Some [C'; D]))
  = [E; D].
Proof.
  intros E.
  rewrite (mergedTasks_stable_order getTime [B; E] [C'; D] 8).
  - vm_compute. reflexivity.
  - apply sample_tasks_dated. vm_compute. reflexivity.
Defined.

Lemma recentTasks_window_facts_witness :
  let undated := task "U" pending "yesterday" in
(undated ∉ recentTasks getTime 10 (inject_Z 24) [B; undated]) /\
  B ∈ recentTasks getTime 3600010 (inject_Z 2) [B; undated].
Proof.
  intros undated.
  destruct (recentTasks_window_facts getTime 10 (inject_Z 24) (inject_Z 24)
              [B; undated] undated) as (Hundated & _).
  destruct (recentTasks_window_facts getTime 3600010 (inject_Z 1) (inject_Z 2)
              [B; undated] B) as (_ & _ & Hwider & _).
  split.
  - apply Hundated. reflexivity.
  - apply Hwider; [discriminate|].
    apply elem_of_List_filter. split; [apply list_elem_of_here | reflexivity].
Defined.

Lemma mergedTasks_ids_witness :
  "C" ∈ map task_id (mergedTasks getTime [B; C] (Some [D])).
Proof.
  destruct (mergedTasks_ids getTime [B; C] [D] "C") as (Hids & _).
  apply Hids. left. apply list_elem_of_further, list_elem_of_here.
Defined.

End ReconcilerOrderSamples.

Section Groups.

Implicit Types (recent : list Task) (task : Task) (st : TaskStatus).

Lemma status_eqb_eq (a b : TaskStatus) : status_eqb a b = true <-> a = b.
Proof. destruct a, b; cbn; split; congruence. Qed.

Lemma tasksByStatus_acc recent (acc : TaskStatus -> option (list Task)) st :
  foldl
    (fun acc task =>
       let group := default [] (acc (status task)) in
       fun st => if status_eqb st (status task) then Some (group ++ [task])
                 else acc st)
    acc recent st
  = match List.filter (fun task => status_eqb (status task) st) recent with
    | [] => acc st
    | group => Some (default [] (acc st) ++ group)
    end.
Proof.
  revert acc. induction recent as [|t recent IH]; intros acc; [reflexivity|].
  cbn [foldl List.filter]. rewrite IH.
  destruct (status_eqb (status t) st) eqn:Hts.
  - apply status_eqb_eq in Hts. subst st.
    assert (Hrefl : status_eqb (status t) (status t) = true)
      by (apply status_eqb_eq; reflexivity).
    rewrite Hrefl. cbn [default from_option Datatypes.id].
    destruct (List.filter _ recent) as [|t' group]; [reflexivity|].
    rewrite <- app_assoc. reflexivity.
  - assert (Hst : status_eqb st (status t) = false).
    { apply not_true_iff_false. rewrite status_eqb_eq. intros ->.
      apply not_true_iff_false in Hts. apply Hts, status_eqb_eq. reflexivity. }
    rewrite Hst. reflexivity.
Qed.

(** X24. [tasksByStatus] has a key for a status exactly when some of the
    tasks has that status, and under the key the tasks of that status in the
    order they came in; it never holds an empty array, and a status without
    tasks reads as undefined. *)
Theorem tasksByStatus_groups recent st :
  tasksByStatus recent st
  = match List.filter (fun task => status_eqb (status task) st) recent with
    | [] => None
    | group => Some group
    end /\
  (tasksByStatus recent st = None
   <-> forall task, task ∈ recent -> status task <> st) /\
  tasksByStatus recent st <> Some [].
Proof.
  assert (Heq : tasksByStatus recent st
                = match List.filter (fun task => status_eqb (status task) st)
                          recent with
                  | [] => None
                  | group => Some group
                  end).
  { unfold tasksByStatus. rewrite tasksByStatus_acc.
    destruct (List.filter _ recent); reflexivity. }
  split; [exact Heq|]. rewrite Heq. split.
  - destruct (List.filter _ recent) as [|t group] eqn:Hfilter.
    + split; [|reflexivity]. intros _ task Hin Hst.
      assert (Hin' : task ∈ List.filter
                       (fun task => status_eqb (status task) st) recent).
      { apply elem_of_List_filter. split; [exact Hin|].
        apply status_eqb_eq, Hst. }
      rewrite Hfilter in Hin'. apply elem_of_nil in Hin'. exact Hin'.
    + split; [discriminate|]. intros Hnone. exfalso.
      assert (Hin : t ∈ List.filter
                      (fun task => status_eqb (status task) st) recent).
      { rewrite Hfilter. apply list_elem_of_here. }
      apply elem_of_List_filter in Hin as [Hin Hst].
      apply (Hnone t Hin). apply status_eqb_eq, Hst.
  - destruct (List.filter _ recent); discriminate.
Qed.

Lemma tasksByStatus_groups_witness :
  tasksByStatus [Sample.B; Sample.D; Sample.C] pending
    = Some [Sample.B; Sample.C] /\
  tasksByStatus [Sample.B; Sample.D; Sample.C] failed = None.
Proof.
  destruct (tasksByStatus_groups [Sample.B; Sample.D; Sample.C] pending)
    as (Hpending & _).
  destruct (tasksByStatus_groups [Sample.B; Sample.D; Sample.C] failed)
    as (_ & Hfailed & _).
  split; [rewrite Hpending; reflexivity|].
  apply Hfailed. intros task Hin.
  apply elem_of_cons in Hin as [->|Hin]; [discriminate|].
  apply elem_of_cons in Hin as [->|Hin]; [discriminate|].
  apply list_elem_of_singleton in Hin as ->. discriminate.
Defined.

End Groups.

(** ** Components *)

Section ComponentFacts.

Import Components.

Lemma string_forall_app (p : Ascii.ascii -> bool) (s1 s2 : string) :
  string_forall p (s1 +:+ s2) = string_forall p s1 && string_forall p s2.
Proof.
  induction s1 as [|c s1 IH]; [reflexivity|].
  change (String c s1 +:+ s2) with (String c (s1 +:+ s2)).
  cbn [string_forall]. rewrite IH. apply andb_assoc.
Qed.

Lemma append_empty (s1 s2 : string) :
  s1 +:+ s2 = EmptyString -> s2 = EmptyString.
Proof. destruct s1; [auto | discriminate]. Qed.

(** X25. The name a download is saved under: when the original name ends in
    a dot followed by one or more characters that are neither dot nor slash,
    that ending is cut off and [.mid] put in its place; a name without any
    dot keeps all of it and gets [.mid] added; in every case what is kept is
    a beginning of the original name. *)
Theorem download_filename_extension (task : Task) :
  (forall base ext : string,
     original_filename task = base +:+ "." +:+ ext ->
     ext <> EmptyString ->
     string_forall extension_char ext = true ->
     download_filename task = base +:+ ".mid") /\
  (string_forall (fun c => negb (Ascii.eqb c "."%char)) (original_filename task)
     = true ->
   download_filename task = original_filename task +:+ ".mid") /\
  (exists cut : string,
     original_filename task = strip_extension (original_filename task) +:+ cut).
Proof.
  unfold download_filename. generalize (original_filename task) as name.
  intros name. split; [|split].
  - intros base ext -> Hne Hext. f_equal.
    induction base as [|c base IH].
    + change (EmptyString +:+ "." +:+ ext) with (String "."%char ext).
      cbn [strip_extension]. rewrite Hext, Ascii.eqb_refl.
      destruct (String.eqb_spec ext EmptyString) as [|_]; [contradiction|].
      reflexivity.
    + change (String c base +:+ "." +:+ ext)
        with (String c (base +:+ "." +:+ ext)).
      cbn [strip_extension]. rewrite string_forall_app.
      change ("." +:+ ext) with (String "."%char ext) at 2.
      cbn [string_forall]. change (extension_char "."%char) with false.
      cbn [andb]. rewrite !andb_false_r. f_equal. exact IH.
  - intros Hnodot. f_equal. induction name as [|c name IH]; [reflexivity|].
    cbn in Hnodot |- *. apply andb_prop in Hnodot as [Hc Hrest].
    apply negb_true_iff in Hc. rewrite Hc. cbn. f_equal. apply IH, Hrest.
  - induction name as [|c name [cut IH]]; [exists EmptyString; reflexivity|].
    cbn. destruct (_ && _ && _).
    + exists (String c name). reflexivity.
    + exists cut.
      change (String c (strip_extension name) +:+ cut)
        with (String c (strip_extension name +:+ cut)).
      f_equal. exact IH.
Qed.

Lemma download_filename_extension_witness :
  let song := Sample.task "a" completed Sample.t5 in
  download_filename song = "song.mid" /\
  download_filename (spread_task song
      (mkPartialTask None None (Some "README") None None None None None None
         None None None None None None))
  = "README.mid".
Proof.
  intros song.
  destruct (download_filename_extension song) as (Hcut & _).
  destruct (download_filename_extension (spread_task song
      (mkPartialTask None None (Some "README") None None None None None None
         None None None None None None))) as (_ & Hkeep & _).
  split.
  - apply (Hcut "song" "mp3"); [reflexivity | discriminate | reflexivity].
  - apply Hkeep. reflexivity.
Defined.

(** X26. A task can be cancelled exactly when it is pending or processing,
    the statuses that keep the polls running; no task can be both cancelled
    and downloaded; and a task patched to cancelled, as a successful cancel
    does, can be neither cancelled again nor downloaded. *)
Theorem cancel_and_download_exclusive (task : Task) :
  canCancel task = is_active (status task) /\
  (canCancel task = true -> canDownload task = false) /\
  canCancel (spread_task task UseTasks.status_cancelled) = false /\
  canDownload (spread_task task UseTasks.status_cancelled) = false /\
  (canDownload task = true ->
   status task = completed /\ exists url, download_url task = Some url
                                          /\ url <> EmptyString).
Proof.
  unfold canCancel, canDownload. split; [|split; [|split; [|split]]].
  - destruct (status task); reflexivity.
  - destruct (status task); cbn; congruence.
  - reflexivity.
  - reflexivity.
  - destruct (status task); cbn; try discriminate.
    destruct (download_url task) as [url|]; cbn; [|discriminate].
    destruct (String.eqb_spec url EmptyString); cbn; [discriminate|].
    intros _. split; [reflexivity|]. exists url. split; [reflexivity|assumption].
Qed.

Lemma cancel_and_download_exclusive_witness :
  canDownload Sample.B = false.
Proof.
  destruct (cancel_and_download_exclusive Sample.B) as (_ & Hexclusive & _).
  apply Hexclusive. reflexivity.
Defined.

Lemma existsb_Z_eqb (x : Z) (l : list Z) :
  existsb (Z.eqb x) l = true <-> x ∈ l.
Proof.
  rewrite existsb_exists. split.
  - intros (y & Hin & Heq). apply Z.eqb_eq in Heq. subst y.
    apply list_elem_of_In, Hin.
  - intros Hin. exists x. split; [apply list_elem_of_In, Hin | apply Z.eqb_refl].
Qed.

Lemma elem_of_filter_ne (item other : Z) (prev : list Z) :
  other ∈ List.filter (fun x => negb (Z.eqb x item)) prev
  <-> other ∈ prev /\ other <> item.
Proof.
  rewrite elem_of_List_filter, negb_true_iff, Z.eqb_neq. reflexivity.
Qed.

(** X27. [toggleExpanded] flips whether the item is in the list and leaves
    every other item in or out as it was; a list without repetitions stays
    one; and toggling an absent item twice gives the list back. *)
Theorem toggleExpanded_flips (item : Z) (prev : list Z) :
  (item ∈ toggleExpanded item prev <-> item ∉ prev) /\
  (forall other, other <> item ->
     (other ∈ toggleExpanded item prev <-> other ∈ prev)) /\
  (NoDup prev -> NoDup (toggleExpanded item prev)) /\
  (item ∉ prev -> toggleExpanded item (toggleExpanded item prev) = prev).
Proof.
  destruct (existsb (Z.eqb item) prev) eqn:Hex.
  - assert (Htoggle : toggleExpanded item prev
                      = List.filter (fun x => negb (Z.eqb x item)) prev)
      by (unfold toggleExpanded; rewrite Hex; reflexivity).
    rewrite !Htoggle. apply existsb_Z_eqb in Hex. split; [|split; [|split]].
    + rewrite elem_of_filter_ne. tauto.
    + intros other Hne. rewrite elem_of_filter_ne. tauto.
    + intros Hnd. eapply sublist_NoDup; [exact Hnd | apply List_filter_sublist].
    + intros Hnot. contradiction.
  - assert (Htoggle : toggleExpanded item prev = prev ++ [item])
      by (unfold toggleExpanded; rewrite Hex; reflexivity).
    rewrite !Htoggle.
    apply not_true_iff_false in Hex. rewrite existsb_Z_eqb in Hex.
    split; [|split; [|split]].
    + rewrite elem_of_app, list_elem_of_singleton. tauto.
    + intros other Hne. rewrite elem_of_app, list_elem_of_singleton. tauto.
    + intros Hnd. apply NoDup_app. split; [exact Hnd|].
      split; [|apply NoDup_singleton].
      intros x Hx Hx'. apply list_elem_of_singleton in Hx'. congruence.
    + intros _. unfold toggleExpanded.
      assert (Hin : existsb (Z.eqb item) (prev ++ [item]) = true).
      { apply existsb_Z_eqb, elem_of_app. right. apply list_elem_of_here. }
      rewrite Hin, List.filter_app. cbn. rewrite Z.eqb_refl. cbn.
      rewrite app_nil_r. apply filter_none_out.
      intros x Hx. apply negb_true_iff, Z.eqb_neq. congruence.
Qed.

Lemma toggleExpanded_flips_witness :
  toggleExpanded 7 (toggleExpanded 7 [3; 5]%Z) = [3; 5]%Z /\
  NoDup (toggleExpanded 5 [3; 5]%Z).
Proof.
  destruct (toggleExpanded_flips 7 [3; 5]%Z) as (_ & _ & _ & Htwice).
  destruct (toggleExpanded_flips 5 [3; 5]%Z) as (_ & _ & Hnodup & _).
  split.
  - apply Htwice. apply (bool_decide_unpack _). vm_compute. exact I.
  - apply Hnodup. apply (bool_decide_unpack _). vm_compute. exact I.
Defined.

End ComponentFacts.
